(** * Consensus and rule evolution of the decentralized AI nodes

    A shallow embedding of [src/core/consensus.py],
    [src/core/evolutionary_consensus.py] and the validation glue of
    [src/core/gemma_node.py], followed by the properties of the ledger,
    the quorum, the reputation tracker and the evolution engine.

    Python values are modelled as follows:
    - [str] is [string], [int] is [Z], [float] is the binary64 type
      [float] of the kernel, with the kernel's IEEE 754 operations;
    - a [list] is a [list], a [Dict[str, _]] is a [gmap string _];
    - an object mutated in place is a record threaded through the calls;
      a dictionary that two objects hold is known by its identity where
      it is held and read by its content where it is used;
    - a raised exception is [None] in an [option].
    The first part of the file holds the definitions, the second part the
    lemmas. *)

From Stdlib Require Import ZArith Uint63 Floats Lia Ascii String.
From stdpp Require Import gmap strings pretty list fin_maps sorting.

Local Open Scope string_scope.
Local Open Scope list_scope.
Local Open Scope nat_scope.
Set Warnings "-inexact-float".

(** ** Python strings *)

(** [s * n] on a [str]. *)
Fixpoint str_repeat (s : string) (n : nat) : string :=
  match n with
  | O => ""
  | S n' => s +:+ str_repeat s n'
  end.

(** ** consensus.py *)

Module Consensus.

Section Ledger.
(** [datetime] values and the [changes] payload are never inspected by
    the ledger: they are stored, and formatted once into the hashed text.
    [hashlib.sha256(_).hexdigest()] is a function from text to text. *)
Context {datetime Changes : Type}.
Variable str_datetime : datetime → string.
Variable str_changes : Changes → string.
Variable sha256_hexdigest : string → string.

(** [class Block(BaseModel)]; the ledger's own list of validators is
    [known_validators] below, so that both can be projections. *)
Record Block := mkBlock {
  timestamp : datetime;
  node_id : string;
  changes : Changes;
  previous_hash : string;
  hash : string;
  validators : list string;
  status : string
}.

(** [class Consensus]: [min_validators], [blocks] and [validators]. *)
Record Consensus := mkConsensus {
  min_validators : Z;
  blocks : list Block;
  known_validators : list string
}.

(** [Consensus.__init__]. *)
Definition init (min_validators : Z) : Consensus :=
  mkConsensus min_validators [] [].

(** In-place updates of one block. *)
Definition append_validator (validator_id : string) (b : Block) : Block :=
  mkBlock (timestamp b) (node_id b) (changes b) (previous_hash b) (hash b)
          (validators b ++ [validator_id]) (status b).

Definition set_status (s : string) (b : Block) : Block :=
  mkBlock (timestamp b) (node_id b) (changes b) (previous_hash b) (hash b)
          (validators b) s.

Definition set_blocks (bs : list Block) (self : Consensus) : Consensus :=
  mkConsensus (min_validators self) bs (known_validators self).

(** [add_validator]. *)
Definition add_validator (node : string) (self : Consensus) : Consensus :=
  if bool_decide (node ∈ known_validators self) then self
  else mkConsensus (min_validators self) (blocks self)
                   (known_validators self ++ [node]).

(** ["0" * 64]. *)
Definition zero_sentinel : string := str_repeat "0" 64.

(** [create_block]; [now] is the value of [datetime.now()]. The new block
    has [validators = []] and the default [status = "pending"]. *)
Definition create_block (now : datetime) (node : string) (chg : Changes)
    (self : Consensus) : Block * Consensus :=
  let previous_hash :=
    match last (blocks self) with
    | Some b => hash b
    | None => zero_sentinel
    end in
  let block_data :=
    str_datetime now +:+ node +:+ str_changes chg +:+ previous_hash in
  let block_hash := sha256_hexdigest block_data in
  let block := mkBlock now node chg previous_hash block_hash [] "pending" in
  (block, set_blocks (blocks self ++ [block]) self).

(** [next((b for b in self.blocks if b.hash == block_hash), None)]: the
    first block with that hash, with its position in the ledger. *)
Definition find_block (block_hash : string) (self : Consensus)
    : option (nat * Block) :=
  list_find (λ b, hash b = block_hash) (blocks self).

(** [validate_block]. The block found is mutated in place, which is the
    update of its position in [blocks]. *)
Definition validate_block (block_hash validator_id : string)
    (self : Consensus) : bool * Consensus :=
  match find_block block_hash self with
  | None => (false, self)
  | Some (i, block) =>
      if bool_decide (validator_id ∈ validators block) then (false, self)
      else
        let block := append_validator validator_id block in
        if (min_validators self <=? Z.of_nat (length (validators block)))%Z
        then (true, set_blocks (<[i := set_status "validated" block]> (blocks self)) self)
        else (false, set_blocks (<[i := block]> (blocks self)) self)
  end.

(** [get_validated_changes] and [get_pending_changes]. *)
Definition get_validated_changes (self : Consensus) : list Changes :=
  changes <$> filter (λ b, status b = "validated") (blocks self).

Definition get_pending_changes (self : Consensus) : list Changes :=
  changes <$> filter (λ b, status b = "pending") (blocks self).

(** [reject_block]. *)
Definition reject_block (block_hash : string) (self : Consensus) : Consensus :=
  match find_block block_hash self with
  | None => self
  | Some (i, block) =>
      set_blocks (<[i := set_status "rejected" block]> (blocks self)) self
  end.

(** A call of one of the mutating methods, and the ledger after a
    sequence of calls. *)
Inductive call :=
  | AddValidator (node : string)
  | CreateBlock (now : datetime) (node : string) (chg : Changes)
  | ValidateBlock (block_hash validator_id : string)
  | RejectBlock (block_hash : string).

Definition step (self : Consensus) (c : call) : Consensus :=
  match c with
  | AddValidator node => add_validator node self
  | CreateBlock now node chg => snd (create_block now node chg self)
  | ValidateBlock h v => snd (validate_block h v self)
  | RejectBlock h => reject_block h self
  end.

Definition run (calls : list call) (self : Consensus) : Consensus :=
  foldl step self calls.

(** The two columns of the ledger that the chain is made of. *)
Definition links (bs : list Block) : list (string * string) :=
  (λ b, (previous_hash b, hash b)) <$> bs.

(** Every block points to the hash of the one before it, the first one
    to [prev]. *)
Fixpoint chained (prev : string) (ls : list (string * string)) : Prop :=
  match ls with
  | [] => True
  | (p, h) :: ls' => p = prev ∧ chained h ls'
  end.

(** The hash that the next block has to point to. *)
Definition tip (prev : string) (ls : list (string * string)) : string :=
  default prev (snd <$> last ls).

(** The fields of a block that no method assigns after [create_block]. *)
Definition content (b : Block) : datetime * string * Changes * string * string :=
  (timestamp b, node_id b, changes b, previous_hash b, hash b).

Definition is_create (c : call) : bool :=
  match c with CreateBlock _ _ _ => true | _ => false end.

Definition is_reject (c : call) : bool :=
  match c with RejectBlock _ => true | _ => false end.

(** The number of [create_block] calls among the calls. *)
Definition creations (calls : list call) : nat :=
  length (filter (λ c, is_create c = true) calls).

(** The nodes passed to [add_validator] in the calls. *)
Definition added (calls : list call) : list string :=
  omap (λ c, match c with AddValidator node => Some node | _ => None end) calls.

(** What one call can do to a block of the ledger: nothing;
    [validate_block] appends a validator that the block does not have,
    and sets the status when the count has reached [min_validators];
    [reject_block], allowed by [rejecting], sets the status. *)
Definition evolves (rejecting : bool) (min_validators : Z) (b b' : Block) : Prop :=
  content b' = content b
  ∧ (b' = b
     ∨ (∃ v, (v ∉ validators b) ∧ validators b' = validators b ++ [v]
             ∧ status b' = if (min_validators <=? Z.of_nat (length (validators b')))%Z
                           then "validated" else status b)
     ∨ (rejecting = true ∧ validators b' = validators b ∧ status b' = "rejected")).

(** The block that [create_block] makes: no validators, pending, and
    hashed from its own content. *)
Definition fresh (b : Block) : Prop :=
  validators b = [] ∧ status b = "pending"
  ∧ hash b = sha256_hexdigest (str_datetime (timestamp b) +:+ node_id b
                               +:+ str_changes (changes b) +:+ previous_hash b).

(** The three readings of a block's status together with its validators:
    a validated block has reached the quorum, a pending one has not, or
    has no validator yet. *)
Definition status_sound (min_validators : Z) (b : Block) : Prop :=
  (status b = "pending"
   ∧ (validators b = [] ∨ (Z.of_nat (length (validators b)) < min_validators)%Z))
  ∨ (status b = "validated" ∧ (min_validators ≤ Z.of_nat (length (validators b)))%Z)
  ∨ status b = "rejected".
End Ledger.

Arguments Block : clear implicits.
Arguments Consensus : clear implicits.
Arguments call : clear implicits.

End Consensus.

(** ** Python built-ins used by the evolution engine and the node *)

(** [str.isspace] on one character with a code point below 256. *)
Definition is_space (a : Ascii.ascii) : bool :=
  let n := nat_of_ascii a in
  ((9 <=? n)%nat && (n <=? 13)%nat) || ((28 <=? n)%nat && (n <=? 32)%nat)
  || (n =? 133)%nat || (n =? 160)%nat.

(** [str.split()] with no separator: the maximal runs of characters that
    are not white space. [word] is the run being read, if any. *)
Fixpoint split_from (word : option string) (s : string) : list string :=
  match s with
  | EmptyString => match word with Some w => [w] | None => [] end
  | String a s' =>
      if is_space a
      then match word with
           | Some w => w :: split_from None s'
           | None => split_from None s'
           end
      else split_from (Some (default "" word +:+ String a "")) s'
  end.

Definition split (s : string) : list string := split_from None s.

(** [sorted(l, key=key, reverse=True)] for [float] keys. Python sorts
    stably with [<] on the keys, and [reverse=True] keeps the order of
    elements whose keys are equal: each element goes before the first
    element of a smaller key. Where [<] is not a total order on the keys
    (a NaN among them) the result of Python's sort depends on its
    algorithm; the model is meant for keys that are numbers, and what is
    stated of the order that the code selects in asks for such keys. *)
Fixpoint insert_reverse {A} (key : A → float) (x : A) (l : list A) : list A :=
  match l with
  | [] => [x]
  | y :: l' =>
      if PrimFloat.ltb (key y) (key x) then x :: l
      else y :: insert_reverse key x l'
  end.

Definition sorted_reverse {A} (key : A → float) (l : list A) : list A :=
  foldl (λ acc x, insert_reverse key x acc) [] l.

(** [x] may stand before [y] in a list sorted in reverse: its key is not
    less than the key of [y]. *)
Definition not_less {A} (key : A → float) (x y : A) : Prop :=
  PrimFloat.ltb (key x) (key y) = false.

(** [max(l)] on floats: [None] is the [ValueError] on an empty sequence;
    an item replaces the running maximum when it is [>] than it. *)
Definition py_max (l : list float) : option float :=
  match l with
  | [] => None
  | x :: l' => Some (foldl (λ m item, if PrimFloat.ltb m item then item else m) x l')
  end.

(** ** binary64 values

    [in01] is [0 <= x <= 1] on Python floats. The other definitions serve
    the proof that the reputation update keeps a score in that range:
    they speak of the decoded values ([spec_float]) of the standard
    library's specification of binary64 arithmetic. *)

Definition in01 (x : float) : bool :=
  PrimFloat.leb 0 x && PrimFloat.leb x 1.

(** The decoded 1.0, and [in01] on decoded values. *)
Definition sf_one : spec_float := S754_finite false 4503599627370496 (-52).

Definition SFin01 (x : spec_float) : bool :=
  SFleb (S754_zero false) x && SFleb x sf_one.

(** [2 ^ e] as a multiple of [2 ^ -2200], so that the value [m * 2 ^ e] of
    a mantissa and an exponent is the integer [m * scale e]. *)
Definition scale (e : Z) : Z := (2 ^ (e + 2200))%Z.

(** The mantissa [m] has the exponent that binary64 gives its size. *)
Definition canonical (m : positive) (e : Z) : Prop :=
  fexp prec emax (Zpos (digits2_pos m) + e) = e.

(** [x] is a zero, or positive, canonical and at most [m * 2 ^ e]. *)
Definition below (x : spec_float) (m : positive) (e : Z) : Prop :=
  match x with
  | S754_zero _ => True
  | S754_finite false mx ex =>
      canonical mx ex ∧ (Zpos mx * scale ex ≤ Zpos m * scale e)%Z
  | _ => False
  end.

(** ** evolutionary_consensus.py *)

Module EvolutionaryConsensus.

(** [class ConsensusRule(Enum)]. *)
Inductive ConsensusRule := MAJORITY | WEIGHTED | REPUTATION | EVOLUTIONARY.

(** [ConsensusRule.value]. *)
Definition value (r : ConsensusRule) : string :=
  match r with
  | MAJORITY => "majority"
  | WEIGHTED => "weighted"
  | REPUTATION => "reputation"
  | EVOLUTIONARY => "evolutionary"
  end.

Section Engine.
(** The values of a proposal's parameters are [Any]; [np.mean] is numpy's,
    [None] when it raises on the values it is given. *)
Context {datetime Value : Type}.
Variable np_mean : list Value → option Value.

(** [@dataclass class ConsensusProposal]. *)
Record ConsensusProposal := mkProposal {
  node_id : string;
  rule_type : ConsensusRule;
  parameters : gmap string Value;
  fitness_score : float;
  timestamp : datetime;
  justification : string
}.

(** The dictionary built by [_create_new_rule], with its four keys:
    ["rule_type"], ["parameters"], ["timestamp"] and ["proposals_used"]. *)
Record Rule := mkRule {
  new_rule_type : ConsensusRule;
  new_parameters : gmap string Value;
  new_timestamp : datetime;
  proposals_used : list string
}.

(** The attributes of [EvolutionaryConsensus] that its methods change.
    ([logger], [config_path] and [history_dir] are set once.) *)
Record EvolutionaryConsensus := mkEngine {
  proposals : list ConsensusProposal;
  current_rule : ConsensusRule;
  node_reputation : gmap string float;
  rule_history : list Rule
}.

(** [__init__]. *)
Definition init : EvolutionaryConsensus :=
  mkEngine [] EVOLUTIONARY ∅ [].

(** What one call of [propose_rule] reads from outside the engine:
    [datetime.now()] in [_create_new_rule], and whether the history file
    can be written by [_save_evolution_history]. *)
Record World := mkWorld {
  now : datetime;
  history_file_written : bool
}.

Definition required_params : list string :=
  ["threshold"; "timeout"; "min_validators"].

(** [_validate_parameters]. *)
Definition _validate_parameters (parameters : gmap string Value) : bool :=
  forallb (λ param, bool_decide (is_Some (parameters !! param))) required_params.

(** [_validate_justification]. *)
Definition _validate_justification (justification : string) : bool :=
  (100 <? String.length justification)%nat
  && (20 <? length (split justification))%nat.

(** [_validate_proposal]. *)
Definition _validate_proposal (proposal : ConsensusProposal)
    (self : EvolutionaryConsensus) : bool :=
  if negb (_validate_parameters (parameters proposal)) then false
  else if negb (_validate_justification (justification proposal)) then false
  else match node_reputation self !! node_id proposal with
       | Some score => if PrimFloat.ltb score 0.5 then false else true
       | None => true
       end.

(** [_update_node_reputation]. *)
Definition _update_node_reputation (node : string) (fitness : float)
    (self : EvolutionaryConsensus) : EvolutionaryConsensus :=
  let reputation :=
    match node_reputation self !! node with
    | Some _ => node_reputation self
    | None => <[node := 0.5%float]> (node_reputation self)
    end in
  let prior := default 0.5%float (reputation !! node) in
  mkEngine (proposals self) (current_rule self)
           (<[node := (0.7 * prior + 0.3 * fitness)%float]> reputation)
           (rule_history self).

(** The loop of [_create_new_rule] for one key: [p.parameters[key]] for
    each proposal ([None] is the [KeyError]), then [np.mean]. *)
Definition combine_key (proposals : list ConsensusProposal) (key : string)
    : option (string * Value) :=
  values ← mapM (λ p, parameters p !! key) proposals;
  mean ← np_mean values;
  Some (key, mean).

(** [_create_new_rule]; [None] when an exception is raised. *)
Definition _create_new_rule (now : datetime)
    (proposals : list ConsensusProposal) : option Rule :=
  first ← head proposals;
  combined_params ← mapM (combine_key proposals) (map_to_list (parameters first)).*1;
  Some (mkRule EVOLUTIONARY (list_to_map combined_params) now
               (node_id <$> proposals)).

(** [_evaluate_improvement]. *)
Definition _evaluate_improvement (new_rule : Rule) : bool := true.

(** [_apply_new_rule]. *)
Definition _apply_new_rule (new_rule : Rule) (self : EvolutionaryConsensus)
    : EvolutionaryConsensus :=
  mkEngine [] (new_rule_type new_rule) (node_reputation self)
           (rule_history self ++ [new_rule]).

(** [_save_evolution_history] writes a file and changes nothing in the
    engine; [None] is the error of the file system. *)
Definition _save_evolution_history (w : World) (new_rule : Rule) : option unit :=
  if history_file_written w then Some () else None.

(** [_check_evolution]: the engine after the call, and [None] in the
    first component when the call raises. *)
Definition _check_evolution (w : World) (self : EvolutionaryConsensus)
    : option unit * EvolutionaryConsensus :=
  if (length (proposals self) <? 5)%nat then (Some (), self)
  else
    let sorted_proposals := sorted_reverse fitness_score (proposals self) in
    let best_proposals := take 3 sorted_proposals in
    match _create_new_rule (now w) best_proposals with
    | None => (None, self)
    | Some new_rule =>
        if _evaluate_improvement new_rule
        then let self := _apply_new_rule new_rule self in
             (_save_evolution_history w new_rule, self)
        else (Some (), self)
    end.

(** The body of the [try] of [propose_rule]: the returned value, or
    [None] when an exception leaves the body, and the engine then. *)
Definition propose_rule_try (w : World) (proposal : ConsensusProposal)
    (self : EvolutionaryConsensus) : option bool * EvolutionaryConsensus :=
  if negb (_validate_proposal proposal self) then (Some false, self)
  else
    let self := mkEngine (proposals self ++ [proposal]) (current_rule self)
                         (node_reputation self) (rule_history self) in
    let self := _update_node_reputation (node_id proposal)
                                        (fitness_score proposal) self in
    match _check_evolution w self with
    | (Some _, self) => (Some true, self)
    | (None, self) => (None, self)
    end.

(** [propose_rule]: [except Exception] logs and returns [False]. *)
Definition propose_rule (w : World) (proposal : ConsensusProposal)
    (self : EvolutionaryConsensus) : bool * EvolutionaryConsensus :=
  match propose_rule_try w proposal self with
  | (Some result, self) => (result, self)
  | (None, self) => (false, self)
  end.

(** [get_current_rule] and [get_evolution_history]. *)
Definition get_current_rule (self : EvolutionaryConsensus)
    : string * gmap string Value * option datetime :=
  (value (current_rule self),
   default ∅ (new_parameters <$> last (rule_history self)),
   new_timestamp <$> last (rule_history self)).

Definition get_evolution_history (self : EvolutionaryConsensus) : list Rule :=
  rule_history self.

(** The engine after a sequence of [propose_rule] calls. *)
Definition run (calls : list (World * ConsensusProposal))
    (self : EvolutionaryConsensus) : EvolutionaryConsensus :=
  foldl (λ self c, snd (propose_rule c.1 c.2 self)) self calls.

(** The engine of [propose_rule] between the reputation update and
    [_check_evolution]. *)
Definition admitted (proposal : ConsensusProposal)
    (self : EvolutionaryConsensus) : EvolutionaryConsensus :=
  _update_node_reputation (node_id proposal) (fitness_score proposal)
    (mkEngine (proposals self ++ [proposal]) (current_rule self)
              (node_reputation self) (rule_history self)).

(** No exception is raised inside [propose_rule] in any of the calls. *)
Fixpoint no_internal_error (calls : list (World * ConsensusProposal))
    (self : EvolutionaryConsensus) : Prop :=
  match calls with
  | [] => True
  | c :: calls =>
      is_Some (propose_rule_try c.1 c.2 self).1
      ∧ no_internal_error calls (propose_rule c.1 c.2 self).2
  end.

(** Every fitness score that reaches [_update_node_reputation] in the
    calls, which is the score of a proposal that passes the gate, is
    between 0 and 1. *)
Fixpoint updates_in_unit (calls : list (World * ConsensusProposal))
    (self : EvolutionaryConsensus) : Prop :=
  match calls with
  | [] => True
  | c :: calls =>
      (_validate_proposal c.2 self = true → in01 (fitness_score c.2) = true)
      ∧ updates_in_unit calls (propose_rule c.1 c.2 self).2
  end.

(** The reputation that [_update_node_reputation] stores for a node. *)
Definition updated_score (node : string) (fitness : float)
    (self : EvolutionaryConsensus) : float :=
  (0.7 * default 0.5 (node_reputation self !! node) + 0.3 * fitness)%float.

(** The number of calls in the sequence for which [propose_rule] returns
    [True]. *)
Fixpoint accepted (calls : list (World * ConsensusProposal))
    (self : EvolutionaryConsensus) : nat :=
  match calls with
  | [] => 0
  | c :: calls =>
      (if (propose_rule c.1 c.2 self).1 then 1 else 0)
      + accepted calls (propose_rule c.1 c.2 self).2
  end.

(** The two gates of [_validate_proposal] that read the proposal alone. *)
Definition well_formed (proposal : ConsensusProposal) : Prop :=
  _validate_parameters (parameters proposal) = true
  ∧ _validate_justification (justification proposal) = true.

(** A rule as [_check_evolution] makes it from three proposals that
    carry the required parameters. *)
Definition evolved (rule : Rule) : Prop :=
  new_rule_type rule = EVOLUTIONARY
  ∧ length (proposals_used rule) = 3
  ∧ _validate_parameters (new_parameters rule) = true.

(** What [propose_rule] keeps true of an engine: the rule type, the shape
    of the pool and of the history, and a reputation on record for every
    node that has a proposal in the pool or in a rule. *)
Definition engine_sound (self : EvolutionaryConsensus) : Prop :=
  current_rule self = EVOLUTIONARY
  ∧ Forall well_formed (proposals self)
  ∧ Forall evolved (rule_history self)
  ∧ Forall (λ p, is_Some (node_reputation self !! node_id p)) (proposals self)
  ∧ Forall (λ rule, Forall (λ node, is_Some (node_reputation self !! node))
                           (proposals_used rule))
           (rule_history self).
End Engine.

Arguments ConsensusProposal : clear implicits.
Arguments Rule : clear implicits.
Arguments EvolutionaryConsensus : clear implicits.
Arguments World : clear implicits.

End EvolutionaryConsensus.

(** ** gemma_node.py: learning, and the validation of a block's changes *)

Module GemmaNode.

(** The identity of a dictionary object: the same [Ref] is the same
    dictionary, whoever holds it. *)
Definition Ref := nat.

#[export] Instance Ref_eq_dec : EqDecision Ref := Nat.eq_dec.

Section Node.
(** An experience is a dictionary that the node stores and passes on;
    [Stamp] is the type of the value kept under ["timestamp"], and
    [Message] the type of the one kept under ["message"]. *)
Context {datetime Experience Stamp Message : Type}.
Variable experience_get_timestamp : Experience → option Stamp.

(** The dictionary returned by [_get_model_updates]. [_validate_changes]
    tests each key for presence, so each is optional here. The values of
    [weight_updates] are read in the dictionary's order. Under
    ["performance_metrics"] the dictionary holds the node's own metrics
    dictionary, not a copy of it: [M] is [Ref], the identity of that
    dictionary, where the changes are kept (in a block), and the content
    of the dictionary where the changes are read. *)
Record ModelUpdates {M : Type} := mkUpdates {
  weight_updates : option (list (string * float));
  performance_metrics : option M
}.
Arguments ModelUpdates : clear implicits.
Arguments mkUpdates {M} _ _.

(** The [changes] dictionary of [learn_from_experience]. *)
Record Changes {M : Type} := mkChanges {
  experience : option Experience;
  model_updates : option (ModelUpdates M);
  timestamp : option Stamp
}.
Arguments Changes : clear implicits.
Arguments mkChanges {M} _ _ _.

(** [GemmaNodeState], the fields read or written here, and the node's own
    [Consensus]. [experiences] is [state.experience] and [metrics] is the
    content of [state.performance_metrics], the dictionary [metrics_ref],
    the names being taken by the keys of the dictionaries above. *)
Record GemmaNode := mkNode {
  id : string;
  experiences : list Experience;
  validation_count : Z;
  is_validator : bool;
  metrics_ref : Ref;
  metrics : gmap string float;
  consensus : Consensus.Consensus datetime (Changes Ref)
}.

(** What the calls outside the core leave behind in one
    [learn_from_experience]: the weight differences read by
    [_get_model_updates], [None] when it raises; the ["learning_rate"]
    metric set by [_evaluate_training] at the end of [_fine_tune], [None]
    when making the dataset or fine-tuning raises before that; and the
    two clocks. *)
Record Training := mkTraining {
  updates : option (list (string * float));
  learning_rate : option float;
  time_time : Stamp;
  datetime_now : datetime
}.

(** [GemmaNode.__init__]: the default metrics, in a dictionary of the
    node's own, and a [Consensus()] of its own in which the node is
    registered. *)
Definition init (node_id : string) (ref : Ref) : GemmaNode :=
  mkNode node_id [] 0 true ref
         {[ "response_quality" := 0%float; "learning_rate" := 0%float;
            "validation_success" := 0%float ]}
         (Consensus.add_validator node_id (Consensus.init 3)).

(** The changes as they read when each dictionary held under
    ["performance_metrics"] has the content that [content] gives. *)
Definition read_changes (content : Ref → gmap string float)
    (changes : Changes Ref) : Changes (gmap string float) :=
  mkChanges (experience changes)
            ((λ u, mkUpdates (weight_updates u) (content <$> performance_metrics u))
               <$> model_updates changes)
            (timestamp changes).

(** The content of a metrics dictionary when [self] runs: of its own
    dictionary what the node holds, of any other dictionary what
    [others] gives for it at that time. *)
Definition read_metrics (others : Ref → gmap string float) (self : GemmaNode)
    (ref : Ref) : gmap string float :=
  if decide (ref = metrics_ref self) then metrics self else others ref.

(** The keys of an experience that [_prepare_training_data] reads:
    ["message"], and ["source"] and ["target"] as an f-string formats
    them; [None] where the key is missing. *)
Variable experience_message : Experience → option Message.
Variable experience_source : Experience → option string.
Variable experience_target : Experience → option string.

(** The example made of one experience: none when there is no
    ["message"]; [None] is the [KeyError] on ["source"] or ["target"]. *)
Definition training_example (exp : Experience) : option (list (string * Message)) :=
  match experience_message exp with
  | None => Some []
  | Some message =>
      source ← experience_source exp;
      target ← experience_target exp;
      Some [("Узел " +:+ source +:+ " общается с узлом " +:+ target, message)]
  end.

(** [_prepare_training_data], up to the list [examples] that the dataset
    is made from: the example of the experience given, then those of
    [self.state.experience[-5:]]. *)
Definition _prepare_training_data (experience : Experience) (self : GemmaNode)
    : option (list (string * Message)) :=
  current ← training_example experience;
  past ← mapM training_example
         (drop (length (experiences self) - 5) (experiences self));
  Some (current ++ concat past).

Variable str_datetime : datetime → string.
Variable str_changes : Changes (gmap string float) → string.
Variable sha256_hexdigest : string → string.

(** [self.state.experience.append(experience)], and the assignment of
    [_evaluate_training]. *)
Definition append_experience (exp : Experience) (self : GemmaNode) : GemmaNode :=
  mkNode (id self) (experiences self ++ [exp]) (validation_count self)
         (is_validator self) (metrics_ref self) (metrics self) (consensus self).

Definition set_learning_rate (rate : float) (self : GemmaNode) : GemmaNode :=
  mkNode (id self) (experiences self) (validation_count self)
         (is_validator self) (metrics_ref self)
         (<["learning_rate" := rate]> (metrics self)) (consensus self).

(** [learn_from_experience]: the experience is recorded, the model is
    tuned, and a block is created for the resulting changes. The first
    component is the block returned, [None] when an exception leaves the
    method; the node is then as the statements before it left it: with
    the experience recorded, and with the learning rate set when it is
    [_get_model_updates] that raises. The block holds the node's metrics
    dictionary itself, and the text that is hashed is the text of the
    changes at the time of the call. *)
Definition learn_from_experience (exp : Experience) (t : Training)
    (self : GemmaNode)
    : option (Consensus.Block datetime (Changes Ref)) * GemmaNode :=
  let self := append_experience exp self in
  match _prepare_training_data exp self with
  | None => (None, self)
  | Some training_data =>
      match learning_rate t with
      | None => (None, self)
      | Some rate =>
          let self := set_learning_rate rate self in
          match updates t with
          | None => (None, self)
          | Some weight_updates =>
              let changes :=
                mkChanges (Some exp)
                          (Some (mkUpdates (Some weight_updates)
                                           (Some (metrics_ref self))))
                          (Some (default (time_time t) (experience_get_timestamp exp))) in
              let '(block, consensus) :=
                Consensus.create_block str_datetime
                  (λ changes, str_changes (read_changes (λ _, metrics self) changes))
                  sha256_hexdigest (datetime_now t) (id self) changes (consensus self) in
              (Some block,
               mkNode (id self) (experiences self) (validation_count self)
                      (is_validator self) (metrics_ref self) (metrics self) consensus)
          end
      end
  end.

(** [_validate_changes]; [None] is the [ValueError] of [max] on an empty
    [weight_updates]. *)
Definition _validate_changes (changes : Changes (gmap string float)) : option bool :=
  match model_updates changes with
  | Some updates =>
      too_large ←
        match weight_updates updates with
        | Some weights =>
            max_update ← py_max weights.*2;
            Some (PrimFloat.ltb 1 max_update)
        | None => Some false
        end;
      if too_large : bool then Some false
      else match performance_metrics updates with
           | Some metrics =>
               if PrimFloat.ltb 0.1 (default 0%float (metrics !! "learning_rate"))
               then Some false else Some true
           | None => Some true
           end
  | None => Some true
  end.

(** [validate_changes]; [None] when [_validate_changes] raises. The
    changes of the block are read as the dictionaries are when the
    method runs: [others] is the content of the metrics dictionaries of
    the other nodes at that time. *)
Definition validate_changes (others : Ref → gmap string float)
    (block : Consensus.Block datetime (Changes Ref))
    (self : GemmaNode) : option (bool * GemmaNode) :=
  if negb (is_validator self) then Some (false, self)
  else
    ok ← _validate_changes
           (read_changes (read_metrics others self) (Consensus.changes block));
    if ok : bool then
      let metrics :=
        match metrics self !! "validation_success" with
        | Some n => Some (<["validation_success" := (n + 1)%float]> (metrics self))
        | None => None
        end in
      metrics ← metrics;
      let '(result, consensus) :=
        Consensus.validate_block (Consensus.hash block) (id self) (consensus self) in
      Some (result, mkNode (id self) (experiences self) (validation_count self + 1)
                           (is_validator self) (metrics_ref self) metrics consensus)
    else Some (false, self).

(** A call of one of the two methods, and the node after a sequence of
    calls. When a method raises, the node is as the method left it for
    the caller that catches the error: [validate_changes] has assigned
    nothing yet. *)
Inductive call :=
  | Learn (exp : Experience) (t : Training)
  | Validate (others : Ref → gmap string float)
             (block : Consensus.Block datetime (Changes Ref)).

Definition step (self : GemmaNode) (c : call) : GemmaNode :=
  match c with
  | Learn exp t => (learn_from_experience exp t self).2
  | Validate others block =>
      match validate_changes others block self with
      | Some (_, self') => self'
      | None => self
      end
  end.

Definition run (calls : list call) (self : GemmaNode) : GemmaNode :=
  foldl step self calls.

(** The ledger of a node that nobody else writes to: the quorum is the
    default of three, and block by block it carries, in their order, the
    experiences for which [learn_from_experience] returned, each block
    the node's own, pending, and validated by nobody or by the node
    alone. *)
Definition own_ledger (self : GemmaNode) : Prop :=
  Consensus.min_validators (consensus self) = 3%Z
  ∧ ∃ learnt,
      learnt `sublist_of` experiences self
      ∧ Forall2 (λ b exp,
           Consensus.node_id b = id self
           ∧ experience (Consensus.changes b) = Some exp
           ∧ Consensus.status b = "pending"
           ∧ (Consensus.validators b = [] ∨ Consensus.validators b = [id self]))
         (Consensus.blocks (consensus self)) learnt.

(** The verdict on ["performance_metrics"] in [_validate_changes]. *)
Definition rate_within_limit (metrics : option (gmap string float)) : bool :=
  match metrics with
  | Some metrics => negb (PrimFloat.ltb 0.1 (default 0%float (metrics !! "learning_rate")))
  | None => true
  end.
End Node.

Arguments ModelUpdates : clear implicits.
Arguments mkUpdates {M} _ _.
Arguments Changes : clear implicits.
Arguments mkChanges {Experience Stamp M} _ _ _.
Arguments GemmaNode : clear implicits.
Arguments Training : clear implicits.
Arguments call : clear implicits.

End GemmaNode.

(** ** Concrete inputs

    The scenarios below run the definitions on these inputs. The clock is
    a counter, and [digest] stands in for SHA-256: like it, it is a fixed
    function of the text, and no scenario depends on which one. *)

Module Sample.
Definition str_datetime (t : Z) : string := pretty t.
Definition str_changes (chg : list (string * Z)) : string :=
  String.concat "," ((λ kv, kv.1 +:+ ":" +:+ pretty kv.2) <$> chg).
Definition digest (text : string) : string := "#" +:+ text.

Definition create_block :=
  Consensus.create_block str_datetime str_changes digest.

(** A ledger with [min_validators = 1] and one block, rejected. *)
Definition rejected_ledger : Consensus.Consensus Z (list (string * Z)) :=
  let '(block, self) := create_block 0%Z "n1" [("x", 1%Z)] (Consensus.init 1) in
  Consensus.reject_block (Consensus.hash block) self.

(** A ledger with [min_validators = 1] and one block, validated by "n1". *)
Definition validated_ledger : Consensus.Consensus Z (list (string * Z)) :=
  let '(block, self) := create_block 0%Z "n1" [("x", 1%Z)] (Consensus.init 1) in
  (Consensus.validate_block (Consensus.hash block) "n1" self).2.

Definition the_hash : string := "#0n1x:1" +:+ Consensus.zero_sentinel.

(** The block of these ledgers, with the given validators and status. *)
Definition the_block (validators : list string) (status : string)
    : Consensus.Block Z (list (string * Z)) :=
  Consensus.mkBlock 0%Z "n1" [("x", 1%Z)] Consensus.zero_sentinel the_hash
                    validators status.
End Sample.

(** Inputs of the evolution engine: parameter values are floats, and
    [mean] stands in for [np.mean] on them (the sum from the left, divided
    by the count). *)
Module EngineSample.
Import EvolutionaryConsensus.

Definition mean (values : list float) : option float :=
  Some (foldl PrimFloat.add 0%float values
        / PrimFloat.of_uint63 (Uint63.of_Z (Z.of_nat (length values))))%float.

(** [np.mean] as numpy computes it on a short list of float64 numbers:
    the sum from the left, which starts at -0.0, divided by the count. *)
Definition mean64 (values : list float) : option float :=
  Some (foldl PrimFloat.add (-0)%float values
        / PrimFloat.of_uint63 (Uint63.of_Z (Z.of_nat (length values))))%float.

Definition params (threshold timeout min_validators : float) : gmap string float :=
  {[ "threshold" := threshold; "timeout" := timeout;
     "min_validators" := min_validators ]}.

Definition why : string :=
  "this rule lowers the threshold a little and raises the timeout because the last rounds show that slow validators were cut off before they could answer at all".

Definition proposal (node : string) (parameters : gmap string float)
    (fitness : float) : ConsensusProposal Z float :=
  mkProposal node MAJORITY parameters fitness 0%Z why.

Definition pa := proposal "a" (params 0.6 30 3) 0.9.
Definition pb := proposal "b" (params 0.7 40 4) 0.8.
Definition pc := proposal "c" (params 0.8 50 5) 0.95.
Definition pd := proposal "d" (params 0.5 20 3) 0.3.
Definition pe := proposal "e" (params 0.9 60 3) 0.6.

(** A proposal of the best fitness with one more parameter than the
    others have. *)
Definition px :=
  proposal "x" (<["quorum" := 0.5%float]> (params 0.6 30 3)) 0.99.

(** A first proposal of fitness 1.0 from a node without a record. *)
Definition pn := proposal "n" (params 0.6 30 3) 1.

Definition world (t : Z) : World Z := mkWorld t true.

(** The engine after the first four proposals. *)
Definition four : EvolutionaryConsensus Z float :=
  run mean [(world 1, pa); (world 2, pb); (world 3, pc); (world 4, pd)] init.
End EngineSample.

(** Inputs of a node: an experience is a text without a time stamp and
    without a message of its own, and the payload is hashed through a
    fixed text. *)
Module NodeSample.
Import GemmaNode.

Definition learn_from_experience :=
  @GemmaNode.learn_from_experience Z string Z string (λ _, None)
    (λ _, None) (λ _, None) (λ _, None) Sample.str_datetime
    (λ _, "changes") Sample.digest.

(** Fine-tuning that moved a weight by 2.0, with a learning rate of 0.05. *)
Definition large_update : Training Z Z :=
  mkTraining (Some [("layer0", 0.25%float); ("layer1", 2%float)]) (Some 0.05%float)
             7%Z 1%Z.

(** Fine-tuning within both limits. *)
Definition small_update : Training Z Z :=
  mkTraining (Some [("layer0", 0.25%float); ("layer1", 0.5%float)]) (Some 0.05%float)
             7%Z 1%Z.

(** Fine-tuning with small weight changes and a learning rate of 0.5. *)
Definition fast_update : Training Z Z :=
  mkTraining (Some [("layer0", 0.25%float); ("layer1", 0.5%float)]) (Some 0.5%float)
             7%Z 1%Z.

(** Fine-tuning that raises. *)
Definition failed_update : Training Z Z :=
  mkTraining (Some [("layer0", 0.25%float)]) None 7%Z 1%Z.

(** Two nodes, each with a metrics dictionary of its own. *)
Definition producer : GemmaNode Z string Z := init "n1" 1.
Definition validator : GemmaNode Z string Z := init "n2" 2.
End NodeSample.

(** * Properties of the ledger and the quorum *)

Section LedgerFacts.
Context {datetime Changes : Type}.
Implicit Types (self : Consensus.Consensus datetime Changes).
Implicit Types (b block : Consensus.Block datetime Changes).
Import Consensus.

Lemma find_block_Some self h i b :
  find_block h self = Some (i, b) → blocks self !! i = Some b ∧ hash b = h.
Proof.
  unfold find_block. intros Hf. apply list_find_Some in Hf. tauto.
Qed.

(** Replacing the block found by one of the same hash does not move it. *)
Lemma find_block_insert self h i b b' :
  find_block h self = Some (i, b) → hash b' = h →
  find_block h (set_blocks (<[i := b']> (blocks self)) self) = Some (i, b').
Proof.
  unfold find_block. simpl. intros Hf Hh.
  apply list_find_Some in Hf as (Hi & _ & Hbefore).
  apply list_find_Some. split_and!; [|done|].
  - apply list_lookup_insert_eq. by eapply lookup_lt_Some.
  - intros j y Hj Hlt. rewrite list_lookup_insert_ne in Hj by lia. eauto.
Qed.

Lemma links_insert (bs : list (Block datetime Changes)) i b b' :
  bs !! i = Some b → previous_hash b' = previous_hash b → hash b' = hash b →
  links (<[i := b']> bs) = links bs.
Proof.
  intros Hi Hp Hh. unfold links. rewrite list_fmap_insert, Hp, Hh.
  apply list_insert_id. by rewrite list_lookup_fmap, Hi.
Qed.

Lemma validate_block_links self h v :
  links (blocks (validate_block h v self).2) = links (blocks self).
Proof.
  unfold validate_block. destruct (find_block h self) as [[i b]|] eqn:Hf; [|done].
  apply find_block_Some in Hf as [Hi _].
  case_bool_decide; [done|]. case_match; simpl; by eapply links_insert.
Qed.

Lemma reject_block_links self h :
  links (blocks (reject_block h self)) = links (blocks self).
Proof.
  unfold reject_block. destruct (find_block h self) as [[i b]|] eqn:Hf; [|done].
  apply find_block_Some in Hf as [Hi _]. simpl. by eapply links_insert.
Qed.

Lemma add_validator_blocks self node :
  blocks (add_validator node self) = blocks self.
Proof. unfold add_validator. by case_bool_decide. Qed.

Lemma chained_snoc prev ls h :
  chained prev ls → chained prev (ls ++ [(tip prev ls, h)]).
Proof.
  revert prev. induction ls as [|[p h'] ls IH]; intros prev; simpl.
  - done.
  - intros [-> Hc]. split; [done|].
    replace (tip prev ((prev, h') :: ls)) with (tip h' ls); [by apply IH|].
    unfold tip. rewrite (last_cons (prev, h')). by destruct (last ls).
Qed.

Lemma chained_first prev ls p h :
  chained prev ls → ls !! 0%nat = Some (p, h) → p = prev.
Proof. destruct ls as [|[p' h'] ls]; simpl; [done|]. intros [-> _] [= -> _]. done. Qed.

Lemma chained_next prev ls i p1 h1 p2 h2 :
  chained prev ls → ls !! i = Some (p1, h1) → ls !! S i = Some (p2, h2) → p2 = h1.
Proof.
  revert prev i. induction ls as [|[p h] ls IH]; intros prev i; [done|].
  simpl. intros [-> Hc]. destruct i as [|i]; simpl.
  - intros [= -> ->] H2. by eapply chained_first.
  - intros H1 H2. by eapply IH.
Qed.

Section WithHash.
Variable str_datetime : datetime → string.
Variable str_changes : Changes → string.
Variable sha256_hexdigest : string → string.
Local Abbreviation create_block :=
  (create_block str_datetime str_changes sha256_hexdigest).
Local Abbreviation step := (step str_datetime str_changes sha256_hexdigest).
Local Abbreviation run := (run str_datetime str_changes sha256_hexdigest).

Lemma create_block_links now node chg self :
  ∃ h, links (blocks (create_block now node chg self).2)
       = links (blocks self) ++ [(tip zero_sentinel (links (blocks self)), h)].
Proof.
  eexists. unfold Consensus.create_block. simpl. unfold links at 1.
  rewrite fmap_app. simpl. f_equal. f_equal. f_equal.
  unfold tip, links. rewrite fmap_last. by destruct (last (blocks self)).
Qed.

Lemma step_chained self c :
  chained zero_sentinel (links (blocks self)) →
  chained zero_sentinel (links (blocks (step self c))).
Proof.
  intros Hc. destruct c as [node|now node chg|h v|h]; unfold Consensus.step.
  - by rewrite add_validator_blocks.
  - destruct (create_block_links now node chg self) as [h ->].
    by apply chained_snoc.
  - by rewrite validate_block_links.
  - by rewrite reject_block_links.
Qed.

Lemma run_chained calls self :
  chained zero_sentinel (links (blocks self)) →
  chained zero_sentinel (links (blocks (run calls self))).
Proof.
  revert self. induction calls as [|c calls IH]; intros self Hc; [done|].
  simpl. apply IH. by apply step_chained.
Qed.

(** C2. Hash-chain integrity: after any sequence of [add_validator],
    [create_block], [validate_block] and [reject_block] calls on a new
    ledger, the first block's [previous_hash] is the sentinel, which is
    64 characters long, and every later block's [previous_hash] is the
    [hash] of the block just before it. *)
Theorem hash_chain_integrity (min_validators : Z) (calls : list (call datetime Changes)) :
  let ledger := blocks (run calls (init min_validators)) in
  (∀ b, ledger !! 0%nat = Some b → previous_hash b = zero_sentinel)
  ∧ (∀ i b b', ledger !! i = Some b → ledger !! S i = Some b' →
               previous_hash b' = hash b)
  ∧ String.length zero_sentinel = 64%nat
  ∧ zero_sentinel = str_repeat "0" 64.
Proof.
  intros ledger.
  assert (Hc : chained zero_sentinel (links ledger)) by by apply run_chained.
  split_and!; [| |done|done].
  - intros b Hb. eapply chained_first; [exact Hc|].
    unfold links. by rewrite list_lookup_fmap, Hb.
  - intros i b b' Hb Hb'. eapply (chained_next _ _ i); [exact Hc| |].
    + unfold links. by rewrite list_lookup_fmap, Hb.
    + unfold links. by rewrite list_lookup_fmap, Hb'.
Qed.
End WithHash.
End LedgerFacts.

(** [x ∉ [y1; ...; yn]] from the disequalities at hand. *)
Ltac not_in_list :=
  repeat (apply not_elem_of_cons; split; [congruence|]); apply not_elem_of_nil.

Section QuorumFacts.
Context {datetime Changes : Type}.
Implicit Types (self : Consensus.Consensus datetime Changes).
Implicit Types (b block : Consensus.Block datetime Changes).
Import Consensus.

(** The validator joins the block that was found, and the count is
    compared with [min_validators]: the status plays no part. *)
Lemma validate_block_new self h v i b :
  find_block h self = Some (i, b) → v ∉ validators b →
  let b1 := append_validator v b in
  let quorum := (min_validators self <=? Z.of_nat (length (validators b1)))%Z in
  validate_block h v self =
    (quorum,
     set_blocks (<[i := if quorum then set_status "validated" b1 else b1]> (blocks self)) self).
Proof.
  intros Hf Hv. unfold validate_block. rewrite Hf.
  rewrite bool_decide_eq_false_2 by done. simpl. by case_match.
Qed.

Lemma validate_block_old self h v i b :
  find_block h self = Some (i, b) → v ∈ validators b →
  validate_block h v self = (false, self).
Proof.
  intros Hf Hv. unfold validate_block. rewrite Hf.
  by rewrite bool_decide_eq_true_2.
Qed.

Lemma validate_block_unknown self h v :
  find_block h self = None → validate_block h v self = (false, self).
Proof. intros Hf. unfold validate_block. by rewrite Hf. Qed.

(** C1, as the code has it. [validate_block] on a block of the ledger
    is a failing no-op exactly when the validator is already in the
    block's list, whatever the block's status. A validator that is new
    to the block is appended, also when the block is rejected or already
    validated, and the call returns [true] and sets the status to
    "validated" when the list has reached [min_validators] entries. *)
Theorem validate_block_any_status self h v i b :
  find_block h self = Some (i, b) →
  (validate_block h v self = (false, self) ↔ v ∈ validators b)
  ∧ (v ∉ validators b →
     let quorum := (min_validators self <=? Z.of_nat (length (validators b)) + 1)%Z in
     ∃ b', (validate_block h v self).1 = quorum
           ∧ blocks (validate_block h v self).2 !! i = Some b'
           ∧ validators b' = validators b ++ [v]
           ∧ status b' = if quorum then "validated" else status b).
Proof.
  intros Hf. pose proof (find_block_Some _ _ _ _ Hf) as [Hi _].
  assert (Hlen : (Z.of_nat (length (validators (append_validator v b)))
                  = Z.of_nat (length (validators b)) + 1)%Z).
  { simpl. rewrite length_app. simpl. lia. }
  split.
  - split; [|by eapply validate_block_old].
    intros Heq. destruct (decide (v ∈ validators b)) as [|Hv]; [done|].
    rewrite (validate_block_new _ _ _ _ _ Hf Hv) in Heq.
    injection Heq as _ Heq. apply (f_equal blocks) in Heq. simpl in Heq.
    apply (f_equal (λ l, length <$> (validators <$> l !! i))) in Heq.
    rewrite list_lookup_insert_eq, Hi in Heq by by eapply lookup_lt_Some.
    simpl in Heq. injection Heq as Heq.
    destruct (_ <=? _)%Z; simpl in Heq; rewrite length_app in Heq; simpl in Heq; lia.
  - intros Hv quorum. rewrite (validate_block_new _ _ _ _ _ Hf Hv).
    cbv zeta. rewrite Hlen. fold quorum. eexists. split; [done|]. split.
    { apply list_lookup_insert_eq. by eapply lookup_lt_Some. }
    by destruct quorum.
Qed.

(** C7. Two [validate_block] calls with the same validator: the second
    one returns [false] and changes nothing, and between the ledger
    before the first call and the ledger after the second every block's
    validator list is unchanged or has gained the validator once, at its
    end, where it was absent; its length has grown by at most one. *)
Theorem validate_block_twice self h v :
  let once := (validate_block h v self).2 in
  let twice := (validate_block h v once).2 in
  validate_block h v once = (false, once)
  ∧ Forall2 (λ b b', ((validators b' = validators b)
                      ∨ ((v ∉ validators b) ∧ validators b' = validators b ++ [v]))
                     ∧ length (validators b') ≤ length (validators b) + 1)
            (blocks self) (blocks twice).
Proof.
  intros once twice.
  assert (Hrefl : ∀ l : list (Block datetime Changes),
    Forall2 (λ b b', ((validators b' = validators b)
                      ∨ ((v ∉ validators b) ∧ validators b' = validators b ++ [v]))
                     ∧ length (validators b') ≤ length (validators b) + 1) l l).
  { intros l. apply Forall_Forall2_diag, Forall_forall. intros b _.
    split; [by left|lia]. }
  destruct (find_block h self) as [[i b]|] eqn:Hf.
  - destruct (decide (v ∈ validators b)) as [Hv|Hv].
    + assert (Honce : once = self).
      { unfold once. by rewrite (validate_block_old _ _ _ _ _ Hf Hv). }
      unfold twice. rewrite Honce, (validate_block_old _ _ _ _ _ Hf Hv).
      split; [done|apply Hrefl].
    + pose proof (find_block_Some _ _ _ _ Hf) as [Hi Hh].
      set (b1 := append_validator v b).
      set (b2 := if (min_validators self <=? Z.of_nat (length (validators b1)))%Z
                 then set_status "validated" b1 else b1).
      assert (Honce : once = set_blocks (<[i := b2]> (blocks self)) self).
      { unfold once. by rewrite (validate_block_new _ _ _ _ _ Hf Hv). }
      assert (Hb2 : validators b2 = validators b ++ [v] ∧ hash b2 = h).
      { unfold b2. by destruct (_ <=? _)%Z. }
      destruct Hb2 as [Hvs Hh2].
      assert (Hagain : validate_block h v once = (false, once)).
      { rewrite Honce. eapply validate_block_old.
        - by eapply find_block_insert.
        - rewrite Hvs. set_solver. }
      split; [done|]. unfold twice. rewrite Hagain, Honce. simpl.
      apply Forall2_same_length_lookup. split; [by rewrite length_insert|].
      intros j x y Hx Hy. destruct (decide (i = j)) as [->|Hne].
      * rewrite list_lookup_insert_eq in Hy by by eapply lookup_lt_Some.
        assert (x = b) by congruence. assert (y = b2) by congruence. subst x y.
        rewrite Hvs, length_app. simpl. split; [by right|lia].
      * rewrite list_lookup_insert_ne in Hy by done.
        assert (x = y) by congruence. subst y. split; [by left|lia].
  - assert (Honce : once = self).
    { unfold once. by rewrite validate_block_unknown. }
    unfold twice. rewrite Honce, validate_block_unknown by done.
    split; [done|apply Hrefl].
Qed.

Section Scenario.
Variable str_datetime : datetime → string.
Variable str_changes : Changes → string.
Variable sha256_hexdigest : string → string.
Local Abbreviation create_block :=
  (create_block str_datetime str_changes sha256_hexdigest).

(** C5. With [min_validators = 3] and three validators registered, a
    new block is pending; validating it with the first and then the
    second of three distinct identities returns [false] and leaves it
    pending with validators [n1] and then [n1; n2]; validating it with
    the third returns [true] and the block is validated. *)
Theorem quorum_of_three now node chg (n1 n2 n3 : string) :
  n1 ≠ n2 → n1 ≠ n3 → n2 ≠ n3 →
  let registered := add_validator n3 (add_validator n2 (add_validator n1 (init 3))) in
  let '(block, created) := create_block now node chg registered in
  let h := hash block in
  let first := validate_block h n1 created in
  let second := validate_block h n2 first.2 in
  let third := validate_block h n3 second.2 in
  let view self := (λ b, (validators b, status b)) <$> blocks self in
  status block = "pending" ∧ view created = [([], "pending")]
  ∧ first.1 = false ∧ view first.2 = [([n1], "pending")]
  ∧ second.1 = false ∧ view second.2 = [([n1; n2], "pending")]
  ∧ third.1 = true ∧ view third.2 = [([n1; n2; n3], "validated")].
Proof.
  intros H12 H13 H23 registered.
  destruct (create_block now node chg registered) as [block created] eqn:Hcreate.
  intros h first second third view.
  assert (Hreg : blocks registered = [] ∧ min_validators registered = 3%Z).
  { unfold registered. rewrite !add_validator_blocks. split; [done|].
    unfold add_validator. repeat case_bool_decide; done. }
  destruct Hreg as [Hnil Hmin].
  unfold Consensus.create_block in Hcreate. rewrite Hnil in Hcreate.
  simpl in Hcreate. injection Hcreate as <- <-.
  set (block := mkBlock _ _ _ _ _ _ _) in *.
  assert (Hfind : ∀ vs st self,
    blocks self = [mkBlock now node chg zero_sentinel h vs st] →
    find_block h self = Some (0%nat, mkBlock now node chg zero_sentinel h vs st)).
  { intros vs st self Hb. unfold find_block. rewrite Hb.
    apply list_find_Some. split_and!; [done|done|]. intros j y _ Hj. lia. }
  assert (H1 : first = (false, set_blocks [mkBlock now node chg zero_sentinel h [n1] "pending"] registered)).
  { unfold first. erewrite validate_block_new; [|by apply Hfind|not_in_list].
    simpl. by rewrite Hmin. }
  assert (H2 : second = (false, set_blocks [mkBlock now node chg zero_sentinel h [n1; n2] "pending"] registered)).
  { unfold second. rewrite H1.
    erewrite validate_block_new; [|by apply Hfind|not_in_list].
    simpl. by rewrite Hmin. }
  assert (H3 : third = (true, set_blocks [mkBlock now node chg zero_sentinel h [n1; n2; n3] "validated"] registered)).
  { unfold third. rewrite H2.
    erewrite validate_block_new; [|by apply Hfind|not_in_list].
    simpl. by rewrite Hmin. }
  rewrite H1, H2, H3. done.
Qed.
End Scenario.
End QuorumFacts.

(** ** The quorum on concrete ledgers *)

Section QuorumScenarios.
Import Consensus.

(** C1 as the specification states it fails. A rejected block that is
    validated by a new identity becomes "validated", and the call
    returns [true] (here with [min_validators = 1]); a validated block
    takes one more validator, and that call returns [true] as well. *)
Lemma validate_block_not_pending_counterexample :
  (blocks Sample.rejected_ledger = [Sample.the_block [] "rejected"]
   ∧ validate_block Sample.the_hash "n2" Sample.rejected_ledger
     = (true, set_blocks [Sample.the_block ["n2"] "validated"] Sample.rejected_ledger))
  ∧ (blocks Sample.validated_ledger = [Sample.the_block ["n1"] "validated"]
     ∧ validate_block Sample.the_hash "n2" Sample.validated_ledger
       = (true, set_blocks [Sample.the_block ["n1"; "n2"] "validated"] Sample.validated_ledger)).
Proof. vm_compute. done. Qed.

(** The statement on the rejected ledger and a validator that is new to
    its block. *)
Lemma validate_block_any_status_witness :
  find_block Sample.the_hash Sample.rejected_ledger
    = Some (0, Sample.the_block [] "rejected")
  ∧ (validate_block Sample.the_hash "n2" Sample.rejected_ledger
       = (false, Sample.rejected_ledger)
     ↔ "n2" ∈ validators (Sample.the_block [] "rejected"))
  ∧ ("n2" ∉ validators (Sample.the_block [] "rejected") →
     ∃ b', (validate_block Sample.the_hash "n2" Sample.rejected_ledger).1 = true
           ∧ blocks (validate_block Sample.the_hash "n2" Sample.rejected_ledger).2 !! 0
             = Some b'
           ∧ validators b' = [] ++ ["n2"]
           ∧ status b' = "validated").
Proof.
  split; [reflexivity|].
  apply (validate_block_any_status Sample.rejected_ledger Sample.the_hash "n2" 0
           (Sample.the_block [] "rejected")).
  reflexivity.
Defined.

(** The scenario with the validators n1, n2 and n3. *)
Lemma quorum_of_three_witness :
  let registered :=
    add_validator "n3" (add_validator "n2" (add_validator "n1" (init 3))) in
  let created := (Sample.create_block 0%Z "n1" [("x", 1%Z)] registered).2 in
  let first := validate_block Sample.the_hash "n1" created in
  let second := validate_block Sample.the_hash "n2" first.2 in
  let third := validate_block Sample.the_hash "n3" second.2 in
  let view self := (λ b, (validators b, status b)) <$> blocks self in
  view created = [([], "pending")]
  ∧ first.1 = false ∧ view first.2 = [(["n1"], "pending")]
  ∧ second.1 = false ∧ view second.2 = [(["n1"; "n2"], "pending")]
  ∧ third.1 = true ∧ view third.2 = [(["n1"; "n2"; "n3"], "validated")].
Proof.
  pose proof (quorum_of_three Sample.str_datetime Sample.str_changes Sample.digest
                0%Z "n1" [("x", 1%Z)] "n1" "n2" "n3") as H.
  apply H; discriminate.
Defined.
End QuorumScenarios.

(** * Order of binary64 values

    The kernel's comparisons are specified by [SFcompare] on the
    decoded values ([ltb_spec], [leb_spec]). *)

Section FloatOrder.

Lemma SFcompare_finite_pos m1 e1 m2 e2 :
  SFcompare (S754_finite false m1 e1) (S754_finite false m2 e2) = Some Lt
  ↔ (e1 < e2 ∨ (e1 = e2 ∧ (m1 < m2)%positive))%Z.
Proof.
  simpl. change (Pos.compare_cont Eq m1 m2) with (Pos.compare m1 m2).
  destruct (Z.compare_spec e1 e2); destruct (Pos.compare_spec m1 m2);
    split; intros; try done; try lia.
Qed.

Lemma SFcompare_finite_neg m1 e1 m2 e2 :
  SFcompare (S754_finite true m1 e1) (S754_finite true m2 e2) = Some Lt
  ↔ (e2 < e1 ∨ (e1 = e2 ∧ (m2 < m1)%positive))%Z.
Proof.
  simpl. change (Pos.compare_cont Eq m1 m2) with (Pos.compare m1 m2).
  destruct (Z.compare_spec e1 e2); destruct (Pos.compare_spec m1 m2);
    simpl; split; intros; try done; try lia.
Qed.

Lemma SFltb_trans x y z :
  SFltb x y = true → SFltb y z = true → SFltb x z = true.
Proof.
  unfold SFltb.
  destruct (SFcompare x y) as [[]|] eqn:Hxy; try done.
  destruct (SFcompare y z) as [[]|] eqn:Hyz; try done.
  intros _ _.
  assert (SFcompare x z = Some Lt) as ->; [|done].
  destruct x as [sx|sx| |sx mx ex], y as [sy|sy| |sy my ey], z as [sz|sz| |sz mz ez];
    try done;
    try (destruct sx, sy, sz; done).
  destruct sx, sy, sz; try done.
  - apply SFcompare_finite_neg in Hxy, Hyz. apply SFcompare_finite_neg. lia.
  - apply SFcompare_finite_pos in Hxy, Hyz. apply SFcompare_finite_pos. lia.
Qed.

Lemma SFltb_asym x y : SFltb x y = true → SFltb y x = false.
Proof.
  unfold SFltb.
  destruct (SFcompare x y) as [[]|] eqn:Hxy; try done. intros _.
  destruct (SFcompare y x) as [[]|] eqn:Hyx; try done.
  destruct x as [sx|sx| |sx mx ex], y as [sy|sy| |sy my ey];
    try done; try (destruct sx, sy; done).
  destruct sx, sy; try done.
  - apply SFcompare_finite_neg in Hxy, Hyx. lia.
  - apply SFcompare_finite_pos in Hxy, Hyx. lia.
Qed.

Lemma ltb_trans (x y z : float) :
  PrimFloat.ltb x y = true → PrimFloat.ltb y z = true → PrimFloat.ltb x z = true.
Proof. rewrite !ltb_spec. apply SFltb_trans. Qed.

Lemma ltb_asym (x y : float) :
  PrimFloat.ltb x y = true → PrimFloat.ltb y x = false.
Proof. rewrite !ltb_spec. apply SFltb_asym. Qed.

End FloatOrder.

(** * The reputation update in binary64

    Products and sums are rounded: [binary_round_aux] shifts the exact
    mantissa right and rounds to nearest even. A rounded value cannot
    pass a canonical bound that the exact value is below, which is what
    keeps [0.7 * r + 0.3 * f] at most 1. *)

Section Binary64.
Local Open Scope Z_scope.

Lemma scale_pos e : -2200 ≤ e → 0 < scale e.
Proof. intros He. unfold scale. apply Z.pow_pos_nonneg; lia. Qed.

Lemma scale_add e n : -2200 ≤ e → 0 ≤ n → scale (e + n) = scale e * 2 ^ n.
Proof.
  intros He Hn. unfold scale.
  replace (e + n + 2200) with ((e + 2200) + n) by lia.
  apply Z.pow_add_r; lia.
Qed.

Lemma fexp_ge_emin e : -1074 ≤ fexp prec emax e.
Proof. unfold fexp, SpecFloat.emin, prec, emax. lia. Qed.

Lemma fexp_mono e1 e2 : e1 ≤ e2 → fexp prec emax e1 ≤ fexp prec emax e2.
Proof. unfold fexp, SpecFloat.emin, prec, emax. lia. Qed.

(** The number of binary digits of a mantissa. *)
Lemma digits2_pos_bounds m :
  2 ^ (Zpos (digits2_pos m) - 1) ≤ Zpos m < 2 ^ Zpos (digits2_pos m).
Proof.
  induction m as [m IH|m IH|]; simpl digits2_pos.
  - rewrite Pos2Z.inj_succ, (Pos2Z.inj_xI m).
    replace (Z.succ (Zpos (digits2_pos m)) - 1) with ((Zpos (digits2_pos m) - 1) + 1) by lia.
    rewrite Z.pow_succ_r, Z.pow_add_r, Z.pow_1_r by lia. lia.
  - rewrite Pos2Z.inj_succ, (Pos2Z.inj_xO m).
    replace (Z.succ (Zpos (digits2_pos m)) - 1) with ((Zpos (digits2_pos m) - 1) + 1) by lia.
    rewrite Z.pow_succ_r, Z.pow_add_r, Z.pow_1_r by lia. lia.
  - simpl. lia.
Qed.

Lemma Zdigits2_bounds m :
  0 < m → 2 ^ (Zdigits2 m - 1) ≤ m < 2 ^ Zdigits2 m.
Proof. destruct m as [|p|p]; try lia. intros _. apply digits2_pos_bounds. Qed.

Lemma Zdigits2_pos m : 0 < m → 0 < Zdigits2 m.
Proof. destruct m; simpl; lia. Qed.

Lemma Zdigits2_unique m d :
  0 < d → 2 ^ (d - 1) ≤ m < 2 ^ d → Zdigits2 m = d.
Proof.
  intros Hd [Hlo Hhi].
  assert (Hm : 0 < m). { pose proof (Z.pow_pos_nonneg 2 (d - 1)). lia. }
  pose proof (Zdigits2_bounds m Hm) as [Hlo' Hhi'].
  pose proof (Zdigits2_pos m Hm) as Hpos.
  destruct (Z.lt_trichotomy (Zdigits2 m) d) as [Hlt|[Heq|Hgt]]; [|done|].
  - assert (2 ^ Zdigits2 m ≤ 2 ^ (d - 1)) by (apply Z.pow_le_mono_r; lia). lia.
  - assert (2 ^ d ≤ 2 ^ (Zdigits2 m - 1)) by (apply Z.pow_le_mono_r; lia). lia.
Qed.

Lemma Zdigits2_mono a b : 0 < a → a ≤ b → Zdigits2 a ≤ Zdigits2 b.
Proof.
  intros Ha Hab.
  pose proof (Zdigits2_bounds a Ha) as [Hlo _].
  pose proof (Zdigits2_bounds b ltac:(lia)) as [_ Hhi].
  pose proof (Zdigits2_pos a Ha). pose proof (Zdigits2_pos b ltac:(lia)).
  destruct (Z.le_gt_cases (Zdigits2 a) (Zdigits2 b)) as [|Hgt]; [done|].
  assert (2 ^ Zdigits2 b ≤ 2 ^ (Zdigits2 a - 1)) by (apply Z.pow_le_mono_r; lia). lia.
Qed.

Lemma Zdigits2_div m n :
  0 < m → 0 ≤ n → 0 < m / 2 ^ n → Zdigits2 (m / 2 ^ n) = Zdigits2 m - n.
Proof.
  intros Hm Hn Hq.
  pose proof (Zdigits2_bounds m Hm) as [Hlo Hhi].
  pose proof (Zdigits2_pos m Hm) as Hd.
  assert (Hpow : 0 < 2 ^ n) by (apply Z.pow_pos_nonneg; lia).
  assert (Hnd : n < Zdigits2 m).
  { destruct (Z.lt_ge_cases n (Zdigits2 m)) as [|Hge]; [done|].
    assert (2 ^ Zdigits2 m ≤ 2 ^ n) by (apply Z.pow_le_mono_r; lia).
    rewrite Z.div_small in Hq by lia. lia. }
  apply Zdigits2_unique; [lia|]. split.
  - apply Z.div_le_lower_bound; [done|].
    rewrite <- Z.pow_add_r by lia.
    replace (n + (Zdigits2 m - n - 1)) with (Zdigits2 m - 1) by lia. done.
  - apply Z.div_lt_upper_bound; [done|].
    rewrite <- Z.pow_add_r by lia.
    replace (n + (Zdigits2 m - n)) with (Zdigits2 m) by lia. done.
Qed.

(** Shifting a mantissa right divides it by a power of two. *)
Lemma shr_1_m r : 0 ≤ shr_m r → shr_m (shr_1 r) = shr_m r / 2.
Proof.
  destruct r as [m rb sb]. simpl. intros Hm.
  destruct m as [|[p|p|]|p]; [done| | |done|lia]; simpl.
  - rewrite (Pos2Z.inj_xI p). apply Z.div_unique with 1; lia.
  - rewrite (Pos2Z.inj_xO p). apply Z.div_unique with 0; lia.
Qed.

Lemma iter_shr_1_m p r :
  0 ≤ shr_m r → shr_m (SpecFloat.iter_pos shr_1 p r) = shr_m r / 2 ^ Zpos p.
Proof.
  revert r. induction p as [p IH|p IH|]; intros r Hr; simpl SpecFloat.iter_pos.
  - assert (H1 : 0 ≤ shr_m (shr_1 r)).
    { rewrite shr_1_m by done. apply Z.div_pos; lia. }
    assert (Hp : 0 < 2 ^ Zpos p) by (apply Z.pow_pos_nonneg; lia).
    assert (H2 : 0 ≤ shr_m (SpecFloat.iter_pos shr_1 p (shr_1 r))).
    { rewrite IH by done. apply Z.div_pos; lia. }
    rewrite IH, IH, shr_1_m by done.
    rewrite !Z.div_div by lia. f_equal.
    rewrite (Pos2Z.inj_xI p), Z.pow_add_r, Z.pow_mul_r by lia.
    change (2 ^ 2) with 4. change (2 ^ 1) with 2.
    replace 4 with (2 * 2) by lia. rewrite Z.pow_mul_l. lia.
  - assert (Hp : 0 < 2 ^ Zpos p) by (apply Z.pow_pos_nonneg; lia).
    assert (H2 : 0 ≤ shr_m (SpecFloat.iter_pos shr_1 p r)).
    { rewrite IH by done. apply Z.div_pos; lia. }
    rewrite IH, IH by done.
    rewrite !Z.div_div by lia. f_equal.
    rewrite (Pos2Z.inj_xO p), Z.pow_mul_r by lia.
    change (2 ^ 2) with 4. replace 4 with (2 * 2) by lia.
    rewrite Z.pow_mul_l. lia.
  - by apply shr_1_m.
Qed.

Lemma shr_fexp_spec m e l :
  0 ≤ m →
  let n := Z.max 0 (fexp prec emax (Zdigits2 m + e) - e) in
  shr_m (shr_fexp prec emax m e l).1 = m / 2 ^ n
  ∧ (shr_fexp prec emax m e l).2 = e + n.
Proof.
  intros Hm n. unfold shr_fexp, shr.
  assert (Hrec : shr_m (shr_record_of_loc m l) = m) by by destruct l as [|[]].
  destruct (fexp prec emax (Zdigits2 m + e) - e) as [|p|p] eqn:Hn; subst n; simpl fst; simpl snd.
  - rewrite Hrec, Z.max_l by lia. simpl. rewrite Z.div_1_r. lia.
  - rewrite iter_shr_1_m by lia. rewrite Hrec, Z.max_r by lia. done.
  - rewrite Hrec, Z.max_l by lia. simpl. rewrite Z.div_1_r. lia.
Qed.

Lemma round_nearest_even_bounds m l :
  m ≤ round_nearest_even m l ≤ m + 1.
Proof. destruct l as [|[]]; simpl; try lia. destruct (Z.even m); lia. Qed.


Lemma canonical_digits m e : canonical m e → Zpos (digits2_pos m) ≤ 53 ∧ -1074 ≤ e.
Proof. unfold canonical, fexp, SpecFloat.emin, prec, emax. lia. Qed.

Lemma canonical_normal m e :
  canonical m e → -1074 < e → Zpos (digits2_pos m) = 53.
Proof. unfold canonical, fexp, SpecFloat.emin, prec, emax. lia. Qed.

Lemma canonical_le m e mB eB :
  canonical m e → canonical mB eB →
  Zpos m * scale e ≤ Zpos mB * scale eB →
  e < eB ∨ (e = eB ∧ Zpos m ≤ Zpos mB).
Proof.
  intros Hc HcB Hle.
  destruct (canonical_digits _ _ Hc) as [Hd He].
  destruct (canonical_digits _ _ HcB) as [HdB HeB].
  pose proof (scale_pos eB ltac:(lia)) as Hs.
  destruct (Z.lt_trichotomy e eB) as [Hlt|[->|Hgt]]; [by left| |].
  - right. split; [done|]. by apply Z.mul_le_mono_pos_r in Hle.
  - exfalso. pose proof (canonical_normal _ _ Hc ltac:(lia)) as Hd53.
    pose proof (digits2_pos_bounds m) as [Hlo _]. rewrite Hd53 in Hlo.
    pose proof (digits2_pos_bounds mB) as [_ Hhi].
    assert (HhiB : Zpos mB < 2 ^ 53).
    { eapply Z.lt_le_trans; [exact Hhi|]. apply Z.pow_le_mono_r; lia. }
    replace e with (eB + (e - eB)) in Hle by lia.
    rewrite scale_add in Hle by lia.
    assert (Hp : 2 ^ 1 ≤ 2 ^ (e - eB)) by (apply Z.pow_le_mono_r; lia).
    rewrite Z.pow_1_r in Hp.
    change (2 ^ (53 - 1)) with 4503599627370496 in Hlo.
    change (2 ^ 53) with 9007199254740992 in HhiB.
    revert Hle Hp Hlo HhiB Hs.
    generalize (2 ^ (e - eB)) (scale eB) (Zpos m) (Zpos mB).
    intros P s a b Hle Hp Hlo HhiB Hs.
    assert (H1 : a * s * 2 ≤ a * s * P) by (apply Z.mul_le_mono_nonneg_l; nia).
    assert (H2 : 4503599627370496 * s ≤ a * s) by (apply Z.mul_le_mono_nonneg_r; lia).
    assert (H3 : b * s < 9007199254740992 * s) by (apply Z.mul_lt_mono_pos_r; lia).
    lia.
Qed.

Lemma value_lt_digits M E mB eB :
  0 < M → 0 < mB → -2200 ≤ E → -2200 ≤ eB →
  M * scale E < mB * scale eB →
  Zdigits2 M + E ≤ Zdigits2 mB + eB.
Proof.
  intros HM HB HE HeB Hlt.
  pose proof (Zdigits2_bounds M HM) as [Hlo _].
  pose proof (Zdigits2_bounds mB HB) as [_ Hhi].
  pose proof (Zdigits2_pos M HM). pose proof (Zdigits2_pos mB HB).
  pose proof (scale_pos E HE). pose proof (scale_pos eB HeB).
  assert (Hpow : 2 ^ (Zdigits2 M - 1) * scale E < 2 ^ Zdigits2 mB * scale eB).
  { eapply Z.le_lt_trans; [apply Z.mul_le_mono_nonneg_r; [lia|exact Hlo]|].
    eapply Z.lt_trans; [exact Hlt|]. apply Z.mul_lt_mono_pos_r; lia. }
  unfold scale in Hpow. rewrite <- !Z.pow_add_r in Hpow by lia.
  apply Z.pow_lt_mono_r_iff in Hpow; lia.
Qed.


(** Rounding a positive value that is strictly below a canonical bound
    gives zero or a canonical value that is at most the bound. *)
Lemma binary_round_aux_below M E mB eB :
  E ≤ fexp prec emax (Zdigits2 (Zpos M) + E) →
  -2200 ≤ E →
  canonical mB eB →
  eB ≤ emax - prec →
  Zpos M * scale E < Zpos mB * scale eB →
  below (binary_round_aux prec emax false (Zpos M) E loc_Exact) mB eB.
Proof.
  intros Hn HE HcB HeB Hlt.
  destruct (canonical_digits _ _ HcB) as [HdB HeBmin].
  set (dM := Zdigits2 (Zpos M)) in *.
  assert (HdM : 0 < dM) by (apply Zdigits2_pos; lia).
  set (e1 := fexp prec emax (dM + E)) in *.
  assert (He1 : e1 = Z.max (dM + E - 53) (-1074)) by done.
  assert (He1B : e1 ≤ eB).
  { etransitivity; [|apply Z.eq_le_incl, HcB]. apply fexp_mono.
    apply (value_lt_digits (Zpos M) E (Zpos mB) eB); lia. }
  set (n := e1 - E).
  assert (Hn0 : 0 ≤ n) by (unfold n; lia).
  assert (Hpn : 0 < 2 ^ n) by (apply Z.pow_pos_nonneg; lia).
  pose proof (scale_pos E HE) as HsE.
  assert (Hs1 : scale e1 = scale E * 2 ^ n).
  { replace e1 with (E + n) by (unfold n; lia). by apply scale_add. }
  assert (HsB : scale eB = scale e1 * 2 ^ (eB - e1)).
  { replace eB with (e1 + (eB - e1)) at 1 by lia. apply scale_add; lia. }
  set (K := Zpos mB * 2 ^ (eB - e1)).
  assert (HB : Zpos mB * scale eB = K * scale e1) by (unfold K; rewrite HsB; lia).
  unfold binary_round_aux.
  destruct (shr_fexp_spec (Zpos M) E loc_Exact ltac:(lia)) as [Hm1 He1'].
  destruct (shr_fexp prec emax (Zpos M) E loc_Exact) as [mrs1 e1'].
  cbv zeta in Hm1, He1'. fold dM e1 n in Hm1, He1'.
  cbn [fst snd] in Hm1, He1'. rewrite Z.max_r in Hm1, He1' by lia.
  assert (e1' = e1) as -> by (unfold n in He1'; lia). clear He1'.
  set (m1 := shr_m mrs1) in *.
  assert (Hm1K : m1 < K).
  { rewrite Hm1. apply Z.div_lt_upper_bound; [done|].
    rewrite HB, Hs1 in Hlt.
    apply (Z.mul_lt_mono_pos_r (scale E)); [done|]. lia. }
  assert (Hm1pos : 0 ≤ m1) by (rewrite Hm1; apply Z.div_pos; lia).
  pose proof (round_nearest_even_bounds m1 (loc_of_shr_record mrs1)) as Hm2.
  set (m2 := round_nearest_even m1 (loc_of_shr_record mrs1)) in *.
  destruct (shr_fexp_spec m2 e1 loc_Exact ltac:(lia)) as [Hm3 He3].
  destruct (shr_fexp prec emax m2 e1 loc_Exact) as [mrs2 e3].
  cbv zeta in Hm3, He3. cbn [fst snd] in Hm3, He3 |- *.
  set (d2 := Zdigits2 m2) in *.
  set (n2 := Z.max 0 (fexp prec emax (d2 + e1) - e1)) in *.
  assert (Hpn2 : 0 < 2 ^ n2) by (apply Z.pow_pos_nonneg; lia).
  destruct (shr_m mrs2) as [|m3|m3] eqn:Hmrs2.
  - done.
  - assert (Hm2pos : 0 < m2).
    { destruct (Z.lt_ge_cases 0 m2) as [|Hle]; [done|].
      assert (m2 = 0) as Hz by lia. rewrite Hz, Z.div_0_l in Hm3 by lia. done. }
    assert (Hfexp2 : e1 ≤ fexp prec emax (d2 + e1)).
    { destruct (Z.lt_ge_cases 0 m1) as [Hpos|Hzero].
      - unfold e1 at 1. apply fexp_mono.
        assert (Zdigits2 m1 = dM - n) as Hd1.
        { rewrite Hm1. apply Zdigits2_div; lia. }
        assert (Zdigits2 m1 ≤ d2) by (apply Zdigits2_mono; lia).
        unfold n in Hd1. lia.
      - assert (m1 = 0) as Hz by lia. rewrite Hm1 in Hz.
        apply Z.div_small_iff in Hz; [|lia].
        pose proof (Zdigits2_bounds (Zpos M) ltac:(lia)) as [Hlo _]. fold dM in Hlo.
        assert (dM - 1 < n).
        { apply (Z.pow_lt_mono_r_iff 2); lia. }
        pose proof (fexp_ge_emin (d2 + e1)). unfold n in *. lia. }
    assert (He3' : e3 = fexp prec emax (d2 + e1)) by (unfold n2 in He3; lia).
    assert (Hn2 : n2 = fexp prec emax (d2 + e1) - e1) by (unfold n2; lia).
    assert (Hd3 : Zdigits2 (Zpos m3) = d2 - n2).
    { rewrite Hm3. apply Zdigits2_div; lia. }
    assert (Hc3 : canonical m3 e3).
    { unfold canonical. change (Zpos (digits2_pos m3)) with (Zdigits2 (Zpos m3)).
      rewrite Hd3, He3'. f_equal. lia. }
    assert (Hs3 : scale e3 = scale e1 * 2 ^ n2).
    { rewrite He3. apply scale_add; lia. }
    assert (Hv3 : Zpos m3 * scale e3 ≤ Zpos mB * scale eB).
    { rewrite HB, Hs3, Hm3.
      pose proof (Z.mul_div_le m2 (2 ^ n2) Hpn2) as Hdiv.
      pose proof (scale_pos e1 ltac:(lia)) as Hse1.
      assert (m2 `div` 2 ^ n2 * (scale e1 * 2 ^ n2) ≤ m2 * scale e1).
      { replace (m2 `div` 2 ^ n2 * (scale e1 * 2 ^ n2))
          with ((2 ^ n2 * m2 `div` 2 ^ n2) * scale e1) by lia.
        apply Z.mul_le_mono_nonneg_r; lia. }
      assert (m2 * scale e1 ≤ K * scale e1).
      { apply Z.mul_le_mono_nonneg_r; lia. }
      lia. }
    destruct (canonical_le _ _ _ _ Hc3 HcB Hv3) as [Hlt3|[Heq3 _]].
    + rewrite (proj2 (Z.leb_le e3 (emax - prec))) by lia. done.
    + rewrite (proj2 (Z.leb_le e3 (emax - prec))) by lia. done.
  - exfalso. assert (0 ≤ m2 `div` 2 ^ n2) by (apply Z.div_pos; lia). lia.
Qed.


Lemma Zdigits2_mul_pow m k :
  0 < m → 0 ≤ k → Zdigits2 (m * 2 ^ k) = Zdigits2 m + k.
Proof.
  intros Hm Hk. pose proof (Zdigits2_bounds m Hm) as [Hlo Hhi].
  pose proof (Zdigits2_pos m Hm) as Hd.
  assert (Hp : 0 < 2 ^ k) by (apply Z.pow_pos_nonneg; lia).
  apply Zdigits2_unique; [lia|]. split.
  - replace (Zdigits2 m + k - 1) with ((Zdigits2 m - 1) + k) by lia.
    rewrite Z.pow_add_r by lia. apply Z.mul_le_mono_nonneg_r; lia.
  - rewrite Z.pow_add_r by lia. apply Z.mul_lt_mono_pos_r; lia.
Qed.

Lemma iter_xO_pow m d : Zpos (Pos.iter xO m d) = Zpos m * 2 ^ Zpos d.
Proof.
  induction d as [|d IH] using Pos.peano_ind.
  - simpl. rewrite (Pos2Z.inj_xO m). lia.
  - rewrite Pos.iter_succ, (Pos2Z.inj_xO (Pos.iter xO m d)), IH, Pos2Z.inj_succ.
    rewrite Z.pow_succ_r by lia. lia.
Qed.

Lemma shl_align_spec m e e' :
  (shl_align m e e').2 = Z.min e e'
  ∧ Zpos (shl_align m e e').1 = Zpos m * 2 ^ (e - Z.min e e').
Proof.
  unfold shl_align. destruct (e' - e) as [|d|d] eqn:Hd; cbn [fst snd].
  - rewrite Z.min_l by lia. rewrite Z.sub_diag. simpl. lia.
  - rewrite Z.min_l by lia. rewrite Z.sub_diag. simpl. lia.
  - rewrite Z.min_r by lia. rewrite iter_xO_pow. split; [done|].
    f_equal. f_equal. lia.
Qed.

Lemma SFleb_finite_pos m1 e1 m2 e2 :
  SFleb (S754_finite false m1 e1) (S754_finite false m2 e2) = true
  ↔ e1 < e2 ∨ (e1 = e2 ∧ Zpos m1 ≤ Zpos m2).
Proof.
  unfold SFleb. simpl.
  change (Pos.compare_cont Eq m1 m2) with (Pos.compare m1 m2).
  destruct (Z.compare_spec e1 e2); destruct (Pos.compare_spec m1 m2);
    split; intros; try done; try lia.
Qed.

(** The cases of a valid value between 0 and 1. *)
Lemma SFin01_cases x :
  valid_binary x = true → SFin01 x = true →
  (∃ s, x = S754_zero s) ∨ x = sf_one
  ∨ (∃ m e, x = S754_finite false m e ∧ canonical m e ∧ e ≤ -53).
Proof.
  unfold SFin01. intros Hvalid [H0 H1]%andb_true_iff.
  destruct x as [s|s| |s m e].
  - left. by exists s.
  - by destruct s.
  - done.
  - destruct s; [done|]. right.
    change (bounded prec emax m e = true) in Hvalid. unfold bounded in Hvalid.
    apply andb_true_iff in Hvalid as [Hc _].
    unfold canonical_mantissa in Hc. apply Z.eqb_eq in Hc.
    change (canonical m e) in Hc.
    apply SFleb_finite_pos in H1 as [Hlt|[-> Hm]].
    + right. exists m, e. split_and!; [done|done|lia].
    + left. pose proof (canonical_normal _ _ Hc ltac:(lia)) as Hd.
      pose proof (digits2_pos_bounds m) as [Hlo _]. rewrite Hd in Hlo.
      change (2 ^ (53 - 1)) with 4503599627370496 in Hlo.
      unfold sf_one. f_equal. lia.
Qed.

Lemma SFin01_below x : below x 4503599627370496 (-52) → SFin01 x = true.
Proof.
  destruct x as [s|s| |[] m e]; try done.
  intros [Hc Hv]. unfold SFin01. apply andb_true_iff. split; [done|].
  assert (HcB : canonical 4503599627370496 (-52)) by done.
  apply SFleb_finite_pos. apply (canonical_le _ _ _ _ Hc HcB Hv).
Qed.

(** The product of a normal constant and a value between 0 and 1 is at
    most the constant. *)
Lemma SFmul_below mc ec x :
  Zpos (digits2_pos mc) = 53 → canonical mc ec → -1100 ≤ ec → ec ≤ emax - prec →
  SFmul prec emax (S754_finite false mc ec) sf_one = S754_finite false mc ec →
  valid_binary x = true → SFin01 x = true →
  below (SFmul prec emax (S754_finite false mc ec) x) mc ec.
Proof.
  intros Hdc Hcc Hec Hec' Hone Hvalid Hx.
  destruct (SFin01_cases x Hvalid Hx) as [[s ->]|[->|(m & e & -> & Hc & He)]].
  - done.
  - rewrite Hone. split; [done|lia].
  - destruct (canonical_digits _ _ Hc) as [Hd Hemin].
    unfold SFmul. cbn [xorb].
    apply binary_round_aux_below; try done; try lia.
    + assert (Zdigits2 (Zpos mc) ≤ Zdigits2 (Zpos (mc * m))).
      { apply Zdigits2_mono; [lia|]. rewrite Pos2Z.inj_mul.
        apply Z.le_mul_diag_r; lia. }
      change (Zdigits2 (Zpos mc)) with (Zpos (digits2_pos mc)) in *.
      unfold fexp, SpecFloat.emin, prec, emax. lia.
    + pose proof (digits2_pos_bounds m) as [_ Hhi].
      assert (Hm : Zpos m < 2 ^ (- e)).
      { eapply Z.lt_le_trans; [exact Hhi|]. apply Z.pow_le_mono_r; lia. }
      replace ec with ((ec + e) + (- e)) at 2 by lia.
      rewrite (scale_add (ec + e) (- e)) by lia.
      pose proof (scale_pos (ec + e) ltac:(lia)) as Hs.
      rewrite Pos2Z.inj_mul.
      assert (Zpos mc * Zpos m < Zpos mc * 2 ^ (- e)) by (apply Z.mul_lt_mono_pos_l; lia).
      replace (Zpos mc * (scale (ec + e) * 2 ^ (- e)))
        with ((Zpos mc * 2 ^ (- e)) * scale (ec + e)) by lia.
      apply Z.mul_lt_mono_pos_r; lia.
Qed.

Lemma SFadd_below a b ma ea mb eb mB eB :
  below a ma ea → below b mb eb → -2200 ≤ ea → -2200 ≤ eb →
  canonical mB eB → eB ≤ emax - prec →
  Zpos ma * scale ea + Zpos mb * scale eb < Zpos mB * scale eB →
  below (SFadd prec emax a b) mB eB.
Proof.
  intros Ha Hb Hea Heb HcB HeB Hsum.
  pose proof (scale_pos ea Hea) as Hsa. pose proof (scale_pos eb Heb) as Hsb.
  destruct a as [sa|sa| |[] xa ya]; try done;
    destruct b as [sb|sb| |[] xb yb]; try done.
  - by destruct sa, sb.
  - destruct Hb as [Hc Hv]. split; [done|].
    assert (0 < Zpos ma * scale ea) by (apply Z.mul_pos_pos; lia). lia.
  - destruct Ha as [Hc Hv]. split; [done|].
    assert (0 < Zpos mb * scale eb) by (apply Z.mul_pos_pos; lia). lia.
  - destruct Ha as [Hca Hva], Hb as [Hcb Hvb].
    destruct (canonical_digits _ _ Hca) as [_ Hya].
    destruct (canonical_digits _ _ Hcb) as [_ Hyb].
    unfold SFadd.
    set (ez := Z.min ya yb).
    destruct (shl_align_spec xa ya ez) as [_ Hma].
    destruct (shl_align_spec xb yb ez) as [_ Hmb].
    rewrite (Z.min_r ya ez) in Hma by (unfold ez; lia).
    rewrite (Z.min_r yb ez) in Hmb by (unfold ez; lia).
    set (xa' := (shl_align xa ya ez).1) in *.
    set (xb' := (shl_align xb yb ez).1) in *.
    set (S := (xa' + xb')%positive).
    set (f := fexp prec emax (Zpos (digits2_pos S) + ez)).
    change (below (let '(mz, ez') := shl_align S ez f in
                   binary_round_aux prec emax false (Zpos mz) ez' loc_Exact) mB eB).
    destruct (shl_align_spec S ez f) as [He' Hmz].
    destruct (shl_align S ez f) as [mz ez'] eqn:Halign. cbn [fst snd] in He', Hmz.
    assert (Hezmin : -1074 ≤ ez) by (unfold ez; lia).
    assert (Hfmin : -1074 ≤ f) by apply fexp_ge_emin.
    assert (Hdz : Zdigits2 (Zpos mz) + ez' = Zpos (digits2_pos S) + ez).
    { rewrite Hmz, Zdigits2_mul_pow by lia. simpl Zdigits2. lia. }
    assert (Hval : Zpos mz * scale ez' = Zpos xa * scale ya + Zpos xb * scale yb).
    { assert (Hsa' : scale ya = scale ez * 2 ^ (ya - ez)).
      { rewrite <- scale_add by lia. f_equal. lia. }
      assert (Hsb' : scale yb = scale ez * 2 ^ (yb - ez)).
      { rewrite <- scale_add by lia. f_equal. lia. }
      assert (Hsz : scale ez = scale ez' * 2 ^ (ez - ez')).
      { rewrite <- scale_add by lia. f_equal. lia. }
      rewrite Hmz, <- He', Hsa', Hsb', Hsz.
      replace (Zpos S) with (Zpos xa' + Zpos xb') by (unfold S; lia).
      rewrite Hma, Hmb. ring. }
    apply binary_round_aux_below; try done; try lia.
    rewrite Hdz. fold f. lia.
Qed.

(** The reputation update keeps a score between 0 and 1: the products are
    at most the constants 0.7 and 0.3, whose sum is below 1, and the
    rounded sum cannot pass 1. *)
Lemma update_in01 (r f : float) :
  in01 r = true → in01 f = true → in01 (0.7 * r + 0.3 * f) = true.
Proof.
  unfold in01. rewrite !leb_spec, add_spec, !mul_spec. unfold SF64add, SF64mul.
  change (Prim2SF 0) with (S754_zero false). change (Prim2SF 1) with sf_one.
  fold (SFin01 (Prim2SF r)) (SFin01 (Prim2SF f)).
  intros Hr Hf.
  pose proof (Prim2SF_valid r) as Hvr. pose proof (Prim2SF_valid f) as Hvf.
  replace (Prim2SF 0.7) with (S754_finite false 6305039478318694 (-53)) by (by vm_compute).
  replace (Prim2SF 0.3) with (S754_finite false 5404319552844595 (-54)) by (by vm_compute).
  apply (SFin01_below (SFadd _ _ _ _)).
  eapply (SFadd_below _ _ 6305039478318694 (-53) 5404319552844595 (-54)).
  - by apply SFmul_below.
  - by apply SFmul_below.
  - lia.
  - lia.
  - done.
  - done.
  - replace (-53) with (-54 + 1) by lia. replace (-52) with (-54 + 2) by lia.
    rewrite !scale_add by lia. pose proof (scale_pos (-54) ltac:(lia)).
    change (2 ^ 1) with 2. change (2 ^ 2) with 4. lia.
Qed.

End Binary64.

(** * The reverse sort *)

Section SortFacts.
Context {A : Type} (key : A → float).

Lemma insert_reverse_perm x l : insert_reverse key x l ≡ₚ x :: l.
Proof.
  induction l as [|y l IH]; simpl; [done|].
  case_match; [done|]. rewrite IH. apply Permutation_swap.
Qed.

Lemma sorted_reverse_perm l : sorted_reverse key l ≡ₚ l.
Proof.
  unfold sorted_reverse.
  assert (H : ∀ acc, foldl (λ acc x, insert_reverse key x acc) acc l ≡ₚ acc ++ l).
  { induction l as [|x l IH]; intros acc; simpl.
    - by rewrite app_nil_r.
    - rewrite IH, insert_reverse_perm. simpl. apply Permutation_middle. }
  apply H.
Qed.

Lemma insert_reverse_sorted x l :
  StronglySorted (not_less key) l →
  StronglySorted (not_less key) (insert_reverse key x l).
Proof.
  induction 1 as [|y l Hs IH Hy]; simpl.
  - repeat constructor.
  - destruct (PrimFloat.ltb (key y) (key x)) eqn:Hyx.
    + constructor; [by constructor|]. constructor.
      * by apply ltb_asym.
      * eapply Forall_impl; [exact Hy|]. intros z Hyz. unfold not_less in *.
        destruct (PrimFloat.ltb (key x) (key z)) eqn:Hxz; [|done].
        by rewrite (ltb_trans _ _ _ Hyx Hxz) in Hyz.
    + constructor; [done|]. rewrite insert_reverse_perm. by constructor.
Qed.

Lemma sorted_reverse_sorted l : StronglySorted (not_less key) (sorted_reverse key l).
Proof.
  unfold sorted_reverse.
  assert (H : ∀ acc, StronglySorted (not_less key) acc →
    StronglySorted (not_less key) (foldl (λ acc x, insert_reverse key x acc) acc l)).
  { induction l as [|x l IH]; intros acc Hacc; simpl; [done|].
    by apply IH, insert_reverse_sorted. }
  apply H. constructor.
Qed.

(** In a list sorted in reverse, nothing after the first [n] elements has
    a key greater than one of them. *)
Lemma sorted_reverse_take_drop l n :
  Forall (λ y, Forall (λ x, not_less key x y) (take n (sorted_reverse key l)))
         (drop n (sorted_reverse key l)).
Proof.
  pose proof (sorted_reverse_sorted l) as Hs. revert n.
  induction Hs as [|x s Hs IH Hx]; intros n.
  - rewrite drop_nil. constructor.
  - destruct n as [|n]; simpl.
    + apply Forall_forall. intros y _. constructor.
    + specialize (IH n). rewrite Forall_forall in IH, Hx. apply Forall_forall.
      intros y Hy. constructor; [|by apply IH].
      apply Hx. by eapply subseteq_drop.
Qed.

End SortFacts.

(** * Properties of the evolution engine *)

Section EngineFacts.
Context {datetime Value : Type}.
Variable np_mean : list Value → option Value.
Import EvolutionaryConsensus.
Implicit Types (self : EvolutionaryConsensus datetime Value).
Implicit Types (p proposal : ConsensusProposal datetime Value).
Implicit Types (w : World datetime).
Implicit Types (ps : list (ConsensusProposal datetime Value)).
Local Abbreviation _create_new_rule := (_create_new_rule np_mean).
Local Abbreviation _check_evolution := (_check_evolution np_mean).
Local Abbreviation propose_rule_try := (propose_rule_try np_mean).
Local Abbreviation propose_rule := (propose_rule np_mean).
Local Abbreviation run := (run np_mean).
Local Abbreviation no_internal_error := (no_internal_error np_mean).

Lemma update_node_reputation_spec node fitness self :
  let self' := _update_node_reputation node fitness self in
  node_reputation self' = <[node := updated_score node fitness self]> (node_reputation self)
  ∧ proposals self' = proposals self
  ∧ current_rule self' = current_rule self
  ∧ rule_history self' = rule_history self.
Proof.
  unfold _update_node_reputation, updated_score. simpl. split_and!; try done.
  destruct (node_reputation self !! node) as [score|] eqn:Hn; simpl.
  - by rewrite Hn.
  - by rewrite lookup_insert_eq, insert_insert_eq.
Qed.

Lemma admitted_spec p self :
  node_reputation (admitted p self)
    = <[node_id p := updated_score (node_id p) (fitness_score p) self]> (node_reputation self)
  ∧ proposals (admitted p self) = proposals self ++ [p]
  ∧ current_rule (admitted p self) = current_rule self
  ∧ rule_history (admitted p self) = rule_history self.
Proof. apply (update_node_reputation_spec _ _ (mkEngine _ _ _ _)). Qed.

(** The three ways through [_check_evolution]. *)
Lemma check_evolution_cases w self :
  (length (proposals self) < 5 ∧ _check_evolution w self = (Some (), self))
  ∨ (5 ≤ length (proposals self)
     ∧ _create_new_rule (now w) (take 3 (sorted_reverse fitness_score (proposals self))) = None
     ∧ _check_evolution w self = (None, self))
  ∨ (5 ≤ length (proposals self)
     ∧ ∃ new_rule,
         _create_new_rule (now w) (take 3 (sorted_reverse fitness_score (proposals self)))
           = Some new_rule
         ∧ _check_evolution w self
           = (if history_file_written w then Some () else None,
              mkEngine [] (new_rule_type new_rule) (node_reputation self)
                       (rule_history self ++ [new_rule]))).
Proof.
  unfold EvolutionaryConsensus._check_evolution.
  destruct (length (proposals self) <? 5) eqn:Hlen.
  - left. apply Nat.ltb_lt in Hlen. done.
  - right. apply Nat.ltb_ge in Hlen.
    destruct (_create_new_rule _ _) as [new_rule|] eqn:Hnew.
    + right. split; [done|]. by exists new_rule.
    + by left.
Qed.

(** [propose_rule] after the gate. *)
Lemma propose_rule_admitted w p self :
  _validate_proposal p self = true →
  propose_rule w p self
  = (bool_decide (is_Some (_check_evolution w (admitted p self)).1),
     (_check_evolution w (admitted p self)).2)
  ∧ (propose_rule_try w p self).1
    = (λ _, true) <$> (_check_evolution w (admitted p self)).1.
Proof.
  intros Hgate.
  unfold EvolutionaryConsensus.propose_rule, EvolutionaryConsensus.propose_rule_try.
  rewrite Hgate. simpl. fold (admitted p self).
  by destruct (_check_evolution w (admitted p self)) as [[[]|] self'].
Qed.

Lemma propose_rule_refused w p self :
  _validate_proposal p self = false →
  propose_rule w p self = (false, self) ∧ (propose_rule_try w p self).1 = Some false.
Proof.
  intros Hgate.
  unfold EvolutionaryConsensus.propose_rule, EvolutionaryConsensus.propose_rule_try.
  by rewrite Hgate.
Qed.

(** C3, as the code has it. When [propose_rule] returns [false], either a
    validation gate failed, and then the engine is exactly as before the
    call; or an exception was caught after the gate, and then the
    proposer's reputation has been updated already, and either the
    proposal is in the pool, which holds five proposals or more, or the
    new rule is installed and the pool is empty, the error being that the
    history file could not be written. [propose_rule] returns for every
    input: no exception leaves it. *)
Theorem propose_rule_false w p self self' :
  propose_rule w p self = (false, self') →
  (_validate_proposal p self = false ∧ self' = self)
  ∨ (_validate_proposal p self = true
     ∧ node_reputation self'
       = <[node_id p := updated_score (node_id p) (fitness_score p) self]> (node_reputation self)
     ∧ ((proposals self' = proposals self ++ [p]
         ∧ 5 ≤ length (proposals self')
         ∧ current_rule self' = current_rule self
         ∧ rule_history self' = rule_history self)
        ∨ (proposals self' = []
           ∧ history_file_written w = false
           ∧ ∃ new_rule, rule_history self' = rule_history self ++ [new_rule]))).
Proof.
  intros Hcall. destruct (_validate_proposal p self) eqn:Hgate.
  - right. split; [done|].
    destruct (propose_rule_admitted w p self Hgate) as [Heq _].
    rewrite Heq in Hcall. injection Hcall as Hres <-.
    destruct (admitted_spec p self) as (Hrep & Hpool & Hrule & Hhist).
    revert Hres.
    destruct (check_evolution_cases w (admitted p self))
      as [[_ ->]|[(Hlen & _ & ->)|(Hlen & new_rule & _ & ->)]]; cbn [fst snd].
    + by rewrite bool_decide_eq_true_2 by by eexists.
    + intros _. split; [done|]. left. by rewrite Hpool in Hlen |- *.
    + intros Hres. split; [done|]. right. simpl. split; [done|].
      destruct (history_file_written w).
      { by rewrite bool_decide_eq_true_2 in Hres by by eexists. }
      split; [done|]. by exists new_rule.
  - left. destruct (propose_rule_refused w p self Hgate) as [Heq _].
    rewrite Heq in Hcall. by injection Hcall as <-.
Qed.

(** C6, the update. After an accepted proposal the proposer's reputation
    is [0.7 * prior + 0.3 * fitness_score] in binary64 arithmetic, where
    the prior is the score on record, or 0.5 when there is none; the
    other nodes' scores are as before. For a new node and a fitness of
    1.0 this is 0.6499999999999999, the binary64 value just below the one
    nearest to 0.65. *)
Theorem reputation_update w p self self' :
  propose_rule w p self = (true, self') →
  node_reputation self' !! node_id p
    = Some (0.7 * default 0.5 (node_reputation self !! node_id p)
            + 0.3 * fitness_score p)%float
  ∧ (∀ node, node ≠ node_id p → node_reputation self' !! node = node_reputation self !! node)
  ∧ (node_reputation self !! node_id p = None → fitness_score p = 1%float →
     node_reputation self' !! node_id p = Some 0.6499999999999999%float).
Proof.
  intros Hcall. destruct (_validate_proposal p self) eqn:Hgate.
  2: { destruct (propose_rule_refused w p self Hgate) as [Heq _]. congruence. }
  destruct (propose_rule_admitted w p self Hgate) as [Heq _].
  rewrite Heq in Hcall. injection Hcall as Hres <-.
  destruct (admitted_spec p self) as (Hrep & _).
  assert (Hsame : node_reputation (_check_evolution w (admitted p self)).2
                  = node_reputation (admitted p self)).
  { destruct (check_evolution_cases w (admitted p self))
      as [[_ Hc]|[(_ & _ & Hc)|(_ & new_rule & _ & Hc)]]; by rewrite Hc. }
  rewrite Hsame, Hrep. unfold updated_score. split_and!.
  - by rewrite lookup_insert_eq.
  - intros node Hne. by rewrite lookup_insert_ne.
  - intros -> ->. by rewrite lookup_insert_eq.
Qed.

(** What [_create_new_rule] returns when it does not raise. *)
Lemma combine_key_fst ps (keys : list string) combined :
  Forall2 (λ key kv, combine_key np_mean ps key = Some kv) keys combined →
  combined.*1 = keys.
Proof.
  induction 1 as [|key kv keys combined Hkey _ IH]; [done|].
  simpl. f_equal; [|done]. unfold combine_key in Hkey.
  destruct (mapM _ ps); simpl in Hkey; [|done].
  destruct (np_mean _); simpl in Hkey; [|done]. by injection Hkey as <-.
Qed.

Lemma create_new_rule_Some now ps new_rule :
  _create_new_rule now ps = Some new_rule →
  new_rule_type new_rule = EVOLUTIONARY
  ∧ new_timestamp new_rule = now
  ∧ proposals_used new_rule = node_id <$> ps
  ∧ ∃ first, head ps = Some first ∧ ∀ key,
      match parameters first !! key with
      | None => new_parameters new_rule !! key = None
      | Some _ =>
          ∃ values mean, mapM (λ p, parameters p !! key) ps = Some values
                         ∧ np_mean values = Some mean
                         ∧ new_parameters new_rule !! key = Some mean
      end.
Proof.
  unfold EvolutionaryConsensus._create_new_rule.
  destruct (head ps) as [first|]; simpl; [|done].
  destruct (mapM _ _) as [combined|] eqn:Hm; simpl; [|done].
  intros [= <-]. simpl. split_and!; try done.
  exists first. split; [done|]. intros key.
  apply mapM_Some in Hm. pose proof (combine_key_fst _ _ _ Hm) as Hfst.
  assert (Hnodup : NoDup combined.*1).
  { rewrite Hfst. apply NoDup_fst_map_to_list. }
  destruct (parameters first !! key) as [v|] eqn:Hkey.
  - assert (Hin : key ∈ (map_to_list (parameters first)).*1).
    { apply list_elem_of_fmap. exists (key, v). split; [done|].
      by apply elem_of_map_to_list. }
    apply list_elem_of_lookup in Hin as [i Hi].
    destruct (Forall2_lookup_l _ _ _ _ _ Hm Hi) as (kv & Hkv & Hcombine).
    unfold combine_key in Hcombine.
    destruct (mapM _ ps) as [values|] eqn:Hvalues; simpl in Hcombine; [|done].
    destruct (np_mean values) as [mean|] eqn:Hmean; simpl in Hcombine; [|done].
    injection Hcombine as <-. exists values, mean. split_and!; try done.
    apply elem_of_list_to_map; [done|]. by eapply list_elem_of_lookup_2.
  - apply not_elem_of_list_to_map. rewrite Hfst. intros Hin.
    apply list_elem_of_fmap in Hin as ([key' v] & -> & Hin).
    apply elem_of_map_to_list in Hin. simpl in Hkey. congruence.
Qed.

(** What an accepted proposal triggers, with [np.mean] as it is given
    and the sort as [sorted_reverse] models it: with fewer than five
    proposals in the pool nothing else happens; otherwise the first three
    proposals of the sorted pool are selected, the rule is installed and
    recorded, and the pool is emptied. *)
Lemma check_evolution_selected w p self self' :
  propose_rule w p self = (true, self') →
  let pool := proposals self ++ [p] in
  (length pool < 5 →
     proposals self' = pool ∧ current_rule self' = current_rule self
     ∧ rule_history self' = rule_history self)
  ∧ (5 ≤ length pool →
     ∃ p1 p2 p3 rest new_rule,
       sorted_reverse fitness_score pool = p1 :: p2 :: p3 :: rest
       ∧ p1 :: p2 :: p3 :: rest ≡ₚ pool
       ∧ not_less fitness_score p1 p2 ∧ not_less fitness_score p2 p3
       ∧ Forall (λ q, Forall (λ s, not_less fitness_score s q) [p1; p2; p3]) rest
       ∧ current_rule self' = EVOLUTIONARY
       ∧ rule_history self' = rule_history self ++ [new_rule]
       ∧ new_rule_type new_rule = EVOLUTIONARY
       ∧ proposals_used new_rule = [node_id p1; node_id p2; node_id p3]
       ∧ proposals self' = []
       ∧ ∀ key,
           match parameters p1 !! key with
           | None => new_parameters new_rule !! key = None
           | Some v1 =>
               ∃ v2 v3 mean,
                 parameters p2 !! key = Some v2 ∧ parameters p3 !! key = Some v3
                 ∧ np_mean [v1; v2; v3] = Some mean
                 ∧ new_parameters new_rule !! key = Some mean
           end).
Proof.
  intros Hcall pool. destruct (_validate_proposal p self) eqn:Hgate.
  2: { destruct (propose_rule_refused w p self Hgate) as [Heq _]. congruence. }
  destruct (propose_rule_admitted w p self Hgate) as [Heq _].
  rewrite Heq in Hcall. injection Hcall as Hres <-.
  destruct (admitted_spec p self) as (_ & Hpool & Hrule & Hhist).
  fold pool in Hpool. revert Hres.
  destruct (check_evolution_cases w (admitted p self))
    as [[Hlen ->]|[(Hlen & _ & ->)|(Hlen & new_rule & Hnew & ->)]];
    cbn [fst snd]; rewrite Hpool in Hlen.
  - intros _. split; [|lia]. intros _. by rewrite Hpool, Hrule, Hhist.
  - by rewrite bool_decide_eq_false_2 by by intros [? ?].
  - intros _. split; [lia|]. intros _. rewrite Hpool in Hnew.
    pose proof (sorted_reverse_perm fitness_score pool) as Hperm.
    pose proof (sorted_reverse_sorted fitness_score pool) as Hsorted.
    pose proof (sorted_reverse_take_drop fitness_score pool 3) as Hbest.
    destruct (sorted_reverse fitness_score pool) as [|p1 [|p2 [|p3 rest]]] eqn:Hs;
      try (apply Permutation_length in Hperm; simpl in Hperm; lia).
    simpl in Hnew, Hbest.
    apply create_new_rule_Some in Hnew as (Htype & _ & Hused & first & Hfirst & Hkeys).
    injection Hfirst as <-.
    apply StronglySorted_inv in Hsorted as [Hsorted Hp1].
    apply StronglySorted_inv in Hsorted as [_ Hp2].
    apply Forall_cons in Hp1 as [Hp12 _]. apply Forall_cons in Hp2 as [Hp23 _].
    exists p1, p2, p3, rest, new_rule. rewrite drop_0 in Hbest.
    split_and!; try done; simpl.
    intros key. specialize (Hkeys key).
    destruct (parameters p1 !! key) as [v1|] eqn:Hk1; [|done].
    destruct Hkeys as (values & mean & Hvalues & Hmean & Hlookup).
    simpl in Hvalues. rewrite Hk1 in Hvalues. simpl in Hvalues.
    destruct (parameters p2 !! key) as [v2|]; simpl in Hvalues; [|done].
    destruct (parameters p3 !! key) as [v3|]; simpl in Hvalues; [|done].
    injection Hvalues as <-. by exists v2, v3, mean.
Qed.

(** One call that raises nothing, on a pool below five. *)
Lemma propose_rule_pool w p self :
  length (proposals self) < 5 →
  is_Some (propose_rule_try w p self).1 →
  let self' := (propose_rule w p self).2 in
  length (proposals self') < 5
  ∧ (_validate_proposal p self = true → length (proposals self) = 4 →
     proposals self' = []
     ∧ ∃ new_rule, rule_history self' = rule_history self ++ [new_rule])
  ∧ (rule_history self' = rule_history self
     ∨ (length (proposals self) = 4
        ∧ ∃ new_rule, rule_history self' = rule_history self ++ [new_rule])).
Proof.
  intros Hlen Hok self'. subst self'.
  destruct (_validate_proposal p self) eqn:Hgate.
  2: { destruct (propose_rule_refused w p self Hgate) as [-> _]. simpl.
       split_and!; [done|done|by left]. }
  destruct (propose_rule_admitted w p self Hgate) as [-> Htry].
  rewrite Htry in Hok. clear Htry. revert Hok.
  destruct (admitted_spec p self) as (_ & Hpool & _ & Hhist).
  destruct (check_evolution_cases w (admitted p self))
    as [[Hlen' ->]|[(Hlen' & _ & ->)|(Hlen' & new_rule & _ & ->)]];
    cbn [fst snd]; rewrite Hpool, length_app in Hlen'; simpl in Hlen'.
  - intros _. rewrite Hpool, Hhist, length_app. simpl.
    split_and!; [lia|lia|by left].
  - by intros [? ?].
  - intros _. simpl. split_and!; [lia|by eauto|right; split; [lia|by eauto]].
Qed.

Lemma no_internal_error_app before c after self :
  no_internal_error (before ++ c :: after) self →
  is_Some (propose_rule_try c.1 c.2 (run before self)).1
  ∧ (length (proposals self) < 5 → length (proposals (run before self)) < 5).
Proof.
  revert self. induction before as [|c' before IH]; intros self; simpl.
  - intros [Hc _]. done.
  - intros [Hc' Hrest]. destruct (IH _ Hrest) as [Hc Hlen]. split; [done|].
    intros Hself. apply Hlen. by apply propose_rule_pool.
Qed.

(** C10. In a sequence of [propose_rule] calls on a new engine in which
    no call raises an exception internally (the improvement check accepts
    every rule), the pool holds fewer than five proposals before and
    after every call, so at most five within one; the call that admits
    the fifth proposal ends with an empty pool and one more rule in the
    history; and a call adds at most one rule, and only in that case. *)
Theorem pool_below_threshold (calls : list (World datetime * ConsensusProposal datetime Value)) :
  no_internal_error calls init →
  ∀ before w p after, calls = before ++ (w, p) :: after →
    let self := run before init in
    let self' := (propose_rule w p self).2 in
    length (proposals self) < 5
    ∧ length (proposals self ++ [p]) ≤ 5
    ∧ length (proposals self') < 5
    ∧ (_validate_proposal p self = true → length (proposals self) = 4 →
       proposals self' = []
       ∧ ∃ new_rule, rule_history self' = rule_history self ++ [new_rule])
    ∧ (rule_history self' = rule_history self
       ∨ (length (proposals self) = 4
          ∧ ∃ new_rule, rule_history self' = rule_history self ++ [new_rule])).
Proof.
  intros Hok before w p after -> self self'.
  apply no_internal_error_app in Hok as [Hcall Hlen]. simpl in Hcall.
  assert (Hself : length (proposals self) < 5) by (apply Hlen; simpl; lia).
  split; [done|]. split; [rewrite length_app; simpl; lia|].
  by apply propose_rule_pool.
Qed.

Lemma propose_rule_reputation w p self :
  node_reputation (propose_rule w p self).2
  = if _validate_proposal p self
    then <[node_id p := updated_score (node_id p) (fitness_score p) self]>
           (node_reputation self)
    else node_reputation self.
Proof.
  destruct (_validate_proposal p self) eqn:Hgate.
  - destruct (propose_rule_admitted w p self Hgate) as [-> _].
    destruct (admitted_spec p self) as (<- & _). cbn [snd].
    destruct (check_evolution_cases w (admitted p self))
      as [[_ ->]|[(_ & _ & ->)|(_ & new_rule & _ & ->)]]; done.
  - by destruct (propose_rule_refused w p self Hgate) as [-> _].
Qed.

Lemma updated_score_in01 node fitness self :
  map_Forall (λ _ score, in01 score = true) (node_reputation self) →
  in01 fitness = true →
  in01 (updated_score node fitness self) = true.
Proof.
  intros Hall Hfitness. unfold updated_score. apply update_in01; [|done].
  destruct (node_reputation self !! node) as [score|] eqn:Hnode; simpl.
  - by eapply Hall.
  - done.
Qed.

Lemma run_reputation_in01 calls self :
  map_Forall (λ _ score, in01 score = true) (node_reputation self) →
  updates_in_unit np_mean calls self →
  map_Forall (λ _ score, in01 score = true) (node_reputation (run calls self)).
Proof.
  revert self. induction calls as [|[w p] calls IH]; intros self Hall; simpl; [done|].
  intros [Hfitness Hrest]. apply IH; [|done].
  rewrite propose_rule_reputation.
  destruct (_validate_proposal p self); [|done].
  apply map_Forall_insert_2; [|done]. apply updated_score_in01; auto.
Qed.

(** C8. If every fitness score that reaches a reputation update lies
    between 0 and 1, then after any sequence of [propose_rule] calls on
    a new engine every reputation on record lies between 0 and 1, in
    binary64 arithmetic with its rounding. *)
Theorem reputation_in_unit_interval
    (calls : list (World datetime * ConsensusProposal datetime Value)) :
  updates_in_unit np_mean calls init →
  ∀ node score, node_reputation (run calls init) !! node = Some score →
    PrimFloat.leb 0 score = true ∧ PrimFloat.leb score 1 = true.
Proof.
  intros Hcalls node score Hnode.
  apply andb_true_iff. change (in01 score = true).
  eapply (run_reputation_in01 calls init); [|done|exact Hnode].
  apply map_Forall_empty.
Qed.

End EngineFacts.

(** ** The engine on concrete proposals *)

Section EngineScenarios.
Import EvolutionaryConsensus EngineSample.

(** C3 as the specification states it fails. With four proposals in the
    pool, a fifth one of the best fitness that has a parameter the others
    lack makes [_create_new_rule] raise [KeyError]: [propose_rule] returns
    [false], but the proposal is in the pool and its proposer has a
    reputation. *)
Lemma propose_rule_false_counterexample :
  let result := propose_rule mean (world 5) px four in
  _validate_proposal px four = true
  ∧ result.1 = false
  ∧ proposals four = [pa; pb; pc; pd]
  ∧ proposals result.2 = [pa; pb; pc; pd; px]
  ∧ node_reputation four !! "x" = None
  ∧ is_Some (node_reputation result.2 !! "x").
Proof. vm_compute. split_and!; try done. by eexists. Qed.

(** The statement on the call of the counterexample. *)
Lemma propose_rule_false_witness :
  let self' := (propose_rule mean (world 5) px four).2 in
  (_validate_proposal px four = false ∧ self' = four)
  ∨ (_validate_proposal px four = true
     ∧ node_reputation self'
       = <["x" := updated_score "x" 0.99 four]> (node_reputation four)
     ∧ ((proposals self' = proposals four ++ [px]
         ∧ 5 ≤ length (proposals self')
         ∧ current_rule self' = current_rule four
         ∧ rule_history self' = rule_history four)
        ∨ (proposals self' = []
           ∧ history_file_written (world 5) = false
           ∧ ∃ new_rule, rule_history self' = rule_history four ++ [new_rule]))).
Proof.
  apply (propose_rule_false mean (world 5) px four).
  vm_compute. reflexivity.
Defined.

(** C6 as the specification states it fails on the value: the reputation
    of a new node after one accepted proposal of fitness 1.0 is not the
    binary64 number 0.65 but the one below it. *)
Lemma reputation_065_counterexample :
  let result := propose_rule mean (world 1) pn init in
  result.1 = true
  ∧ fitness_score pn = 1%float
  ∧ node_reputation (@init Z float) !! "n" = None
  ∧ node_reputation result.2 !! "n" = Some 0.6499999999999999%float
  ∧ node_reputation result.2 !! "n" ≠ Some 0.65%float
  ∧ PrimFloat.ltb 0.6499999999999999 0.65 = true.
Proof.
  vm_compute. split_and!; try done.
Qed.

(** The statement on the first proposal of a new node, of fitness 1.0. *)
Lemma reputation_update_witness :
  let self' := (propose_rule mean (world 1) pn init).2 in
  node_reputation self' !! "n"
    = Some (0.7 * default 0.5 (node_reputation (@init Z float) !! "n") + 0.3 * 1)%float
  ∧ (∀ node, node ≠ "n" → node_reputation self' !! node = node_reputation (@init Z float) !! node)
  ∧ (node_reputation (@init Z float) !! "n" = None → 1%float = 1%float →
     node_reputation self' !! "n" = Some 0.6499999999999999%float).
Proof.
  apply (reputation_update mean (world 1) pn init).
  vm_compute. reflexivity.
Defined.

(** The five calls of the scenario raise nothing, and the fifth one
    empties the pool. *)
Lemma pool_below_threshold_witness :
  let calls := [(world 1, pa); (world 2, pb); (world 3, pc); (world 4, pd); (world 5, pe)] in
  let self' := (propose_rule mean (world 5) pe four).2 in
  no_internal_error mean calls init
  ∧ length (proposals four) < 5
  ∧ length (proposals four ++ [pe]) ≤ 5
  ∧ length (proposals self') < 5
  ∧ (_validate_proposal pe four = true → length (proposals four) = 4 →
     proposals self' = []
     ∧ ∃ new_rule, rule_history self' = rule_history four ++ [new_rule])
  ∧ (rule_history self' = rule_history four
     ∨ (length (proposals four) = 4
        ∧ ∃ new_rule, rule_history self' = rule_history four ++ [new_rule])).
Proof.
  intros calls self'.
  assert (Hok : no_internal_error mean calls init).
  { vm_compute. split_and!; try done; by eexists. }
  split; [exact Hok|].
  apply (pool_below_threshold mean calls Hok
           [(world 1, pa); (world 2, pb); (world 3, pc); (world 4, pd)]
           (world 5) pe []).
  reflexivity.
Defined.

(** The five proposals of the scenario have scores between 0 and 1, and
    so have the five reputations on record after them. *)
Lemma reputation_in_unit_interval_witness :
  let calls := [(world 1, pa); (world 2, pb); (world 3, pc); (world 4, pd); (world 5, pe)] in
  updates_in_unit mean calls init
  ∧ (∀ node score, node_reputation (run mean calls init) !! node = Some score →
       PrimFloat.leb 0 score = true ∧ PrimFloat.leb score 1 = true)
  ∧ dom (node_reputation (run mean calls init)) = {["a"; "b"; "c"; "d"; "e"]}.
Proof.
  intros calls.
  assert (Hcalls : updates_in_unit mean calls init).
  { vm_compute. split_and!; done. }
  split; [exact Hcalls|]. split.
  - exact (reputation_in_unit_interval mean calls Hcalls).
  - by vm_compute.
Defined.

End EngineScenarios.

(** * The sanity check on a block's changes *)

Section NodeFacts.
Context {datetime Experience Stamp Message : Type}.
Variable experience_get_timestamp : Experience → option Stamp.
Variable experience_message : Experience → option Message.
Variable experience_source : Experience → option string.
Variable experience_target : Experience → option string.
Variable str_datetime : datetime → string.
Variable str_changes : GemmaNode.Changes Experience Stamp (gmap string float) → string.
Variable sha256_hexdigest : string → string.
Import GemmaNode.
Implicit Types (self producer validator : GemmaNode datetime Experience Stamp).
Implicit Types (others : Ref → gmap string float).
Local Abbreviation _prepare_training_data :=
  (_prepare_training_data experience_message experience_source experience_target).
Local Abbreviation learn_from_experience :=
  (learn_from_experience experience_get_timestamp experience_message
     experience_source experience_target str_datetime str_changes sha256_hexdigest).

(** [learn_from_experience] when nothing raises. *)
Lemma learn_from_experience_block exp t self rate weights :
  is_Some (_prepare_training_data exp (append_experience exp self)) →
  learning_rate t = Some rate →
  updates t = Some weights →
  ∃ block producer,
    learn_from_experience exp t self = (Some block, producer)
    ∧ Consensus.blocks (consensus producer) = Consensus.blocks (consensus self) ++ [block]
    ∧ Consensus.status block = "pending"
    ∧ Consensus.changes block
      = mkChanges (Some exp)
          (Some (mkUpdates (Some weights) (Some (metrics_ref self))))
          (Some (default (time_time t) (experience_get_timestamp exp)))
    ∧ metrics_ref producer = metrics_ref self
    ∧ metrics producer = <["learning_rate" := rate]> (metrics self).
Proof.
  intros [examples Hexamples] Hrate Hweights.
  unfold GemmaNode.learn_from_experience. rewrite Hexamples, Hrate, Hweights.
  by eexists _, _.
Qed.

(** The check as a node runs it on a block whose changes hold some
    weights and the metrics dictionary [ref]. *)
Lemma validate_changes_read others validator (exp : option Experience)
    weights ref (ts : option Stamp) max_update :
  py_max weights.*2 = Some max_update →
  let changes := mkChanges exp (Some (mkUpdates (Some weights) (Some ref))) ts in
  let rate := default 0%float (read_metrics others validator ref !! "learning_rate") in
  _validate_changes (read_changes (read_metrics others validator) changes)
  = Some (negb (PrimFloat.ltb 1 max_update || PrimFloat.ltb 0.1 rate)).
Proof.
  intros Hmax changes rate. unfold _validate_changes. simpl. rewrite Hmax. simpl.
  fold rate. destruct (PrimFloat.ltb 1 max_update); [done|].
  by destruct (PrimFloat.ltb 0.1 rate).
Qed.

(** C9, as the code has it. [learn_from_experience] runs no check: when
    nothing raises in it, it creates a block for the update, whatever
    the size of the update. The check is [_validate_changes], and it is
    run by the node that validates the block. The block holds the
    weight updates of the call and the producer's metrics dictionary
    itself, so the check answers [False] when the largest weight update
    exceeds 1.0 or when the learning rate that the producer's metrics
    hold at the time of the check exceeds 0.1, and [True] within both
    limits; until the producer's metrics change, that learning rate is
    the one of the update. [validate_changes] returns [False] and
    records nothing when the check fails, and passes the block on to
    [validate_block] when it succeeds. *)
Theorem sanity_check_at_validation exp t self rate weights max_update others validator :
  is_Some (_prepare_training_data exp (append_experience exp self)) →
  learning_rate t = Some rate →
  updates t = Some weights →
  py_max weights.*2 = Some max_update →
  is_validator validator = true →
  ∃ block producer,
    learn_from_experience exp t self = (Some block, producer)
    ∧ Consensus.blocks (consensus producer) = Consensus.blocks (consensus self) ++ [block]
    ∧ metrics producer !! "learning_rate" = Some rate
    ∧ let current := read_metrics others validator (metrics_ref producer) in
      let too_much :=
        PrimFloat.ltb 1 max_update
        || PrimFloat.ltb 0.1 (default 0%float (current !! "learning_rate")) in
      _validate_changes (read_changes (read_metrics others validator)
                                      (Consensus.changes block))
      = Some (negb too_much)
      ∧ (too_much = true → validate_changes others block validator = Some (false, validator))
      ∧ (too_much = false → is_Some (metrics validator !! "validation_success") →
         ∃ accepted validator',
           validate_changes others block validator = Some (accepted, validator')
           ∧ (accepted, consensus validator')
             = Consensus.validate_block (Consensus.hash block) (id validator)
                                        (consensus validator)
           ∧ validation_count validator' = (validation_count validator + 1)%Z)
      ∧ (current = metrics producer → current !! "learning_rate" = Some rate).
Proof.
  intros Hdata Hrate Hweights Hmax Hvalidator.
  destruct (learn_from_experience_block exp t self rate weights Hdata Hrate Hweights)
    as (block & producer & Hlearn & Hblocks & _ & Hchanges & Href & Hmetrics).
  exists block, producer. split; [done|]. split; [done|].
  assert (Hstored : metrics producer !! "learning_rate" = Some rate)
    by by rewrite Hmetrics, lookup_insert_eq.
  split; [done|]. intros current too_much.
  assert (Hcheck : _validate_changes (read_changes (read_metrics others validator)
                                                   (Consensus.changes block))
                   = Some (negb too_much)).
  { rewrite Hchanges, <- Href.
    by rewrite (validate_changes_read others validator _ weights _ _ max_update Hmax). }
  split; [done|]. unfold validate_changes. rewrite Hvalidator, Hcheck. simpl.
  split_and!.
  - by intros ->.
  - intros -> [n Hn]. simpl. rewrite Hn. simpl.
    destruct (Consensus.validate_block _ _ _) as [accepted ledger].
    by eexists _, _.
  - by intros ->.
Qed.

End NodeFacts.

Section NodeScenarios.
Import GemmaNode.

(** C9 as the specification states it fails: an update whose largest
    weight change is 2.0 gets its block. *)
Lemma learn_from_experience_counterexample :
  let result := NodeSample.learn_from_experience "experience" NodeSample.large_update
                  NodeSample.producer in
  updates NodeSample.large_update = Some [("layer0", 0.25%float); ("layer1", 2%float)]
  ∧ py_max [0.25; 2]%float = Some 2%float
  ∧ PrimFloat.ltb 1 2 = true
  ∧ Consensus.blocks (consensus NodeSample.producer) = []
  ∧ ∃ block, result.1 = Some block
             ∧ Consensus.blocks (consensus result.2) = [block]
             ∧ Consensus.status block = "pending".
Proof. vm_compute. split_and!; try done. by eexists. Qed.

(** An update within both limits passes the check of a validating node,
    whose validation is then recorded in its ledger, where the block is
    unknown. *)
Example small_update_passes :
  let result := NodeSample.learn_from_experience "experience" NodeSample.small_update
                  NodeSample.producer in
  ∃ block validator',
    result.1 = Some block
    ∧ validate_changes (λ _, metrics result.2) block NodeSample.validator
      = Some (false, validator')
    ∧ validation_count validator' = 1%Z.
Proof. vm_compute. by eexists _, _. Qed.

(** Fine-tuning that raises: the experience is recorded all the same,
    and no block is made for it. *)
Example failed_learning_keeps_experience :
  let result := NodeSample.learn_from_experience "experience" NodeSample.failed_update
                  NodeSample.producer in
  result.1 = None
  ∧ experiences result.2 = ["experience"]
  ∧ Consensus.blocks (consensus result.2) = [].
Proof. by vm_compute. Qed.

(** The block holds the producer's metrics, not a copy. A block made
    with a learning rate of 0.5 fails the check of another node; after
    the producer has learnt once more, with a learning rate of 0.05, the
    same block passes it. *)
Example check_reads_current_metrics :
  let first := NodeSample.learn_from_experience "experience" NodeSample.fast_update
                 NodeSample.producer in
  let second := NodeSample.learn_from_experience "next" NodeSample.small_update
                  first.2 in
  ∃ block,
    first.1 = Some block
    ∧ _validate_changes (read_changes (λ _, metrics first.2) (Consensus.changes block))
      = Some false
    ∧ _validate_changes (read_changes (λ _, metrics second.2) (Consensus.changes block))
      = Some true.
Proof. vm_compute. by eexists. Qed.

(** The statement on the update of the counterexample, which another
    node refuses to validate while the producer's metrics are as the
    update left them. *)
Lemma sanity_check_at_validation_witness :
  let others := λ _ : Ref,
    metrics (NodeSample.learn_from_experience "experience" NodeSample.large_update
               NodeSample.producer).2 in
  ∃ block producer,
    NodeSample.learn_from_experience "experience" NodeSample.large_update
      NodeSample.producer = (Some block, producer)
    ∧ Consensus.blocks (consensus producer)
      = Consensus.blocks (consensus NodeSample.producer) ++ [block]
    ∧ metrics producer !! "learning_rate" = Some 0.05%float
    ∧ let current := read_metrics others NodeSample.validator (metrics_ref producer) in
      let too_much :=
        PrimFloat.ltb 1 2
        || PrimFloat.ltb 0.1 (default 0%float (current !! "learning_rate")) in
      _validate_changes (read_changes (read_metrics others NodeSample.validator)
                                      (Consensus.changes block))
      = Some (negb too_much)
      ∧ (too_much = true →
         validate_changes others block NodeSample.validator
         = Some (false, NodeSample.validator))
      ∧ (too_much = false →
         is_Some (metrics NodeSample.validator !! "validation_success") →
         ∃ accepted validator',
           validate_changes others block NodeSample.validator
           = Some (accepted, validator')
           ∧ (accepted, consensus validator')
             = Consensus.validate_block (Consensus.hash block)
                 (id NodeSample.validator) (consensus NodeSample.validator)
           ∧ validation_count validator'
             = (validation_count NodeSample.validator + 1)%Z)
      ∧ (current = metrics producer → current !! "learning_rate" = Some 0.05%float).
Proof.
  intros others.
  apply (sanity_check_at_validation (λ _ : string, None) (λ _, @None string)
           (λ _, None) (λ _, None) Sample.str_datetime (λ _, "changes") Sample.digest
           "experience" NodeSample.large_update NodeSample.producer 0.05%float
           [("layer0", 0.25%float); ("layer1", 2%float)] 2%float others
           NodeSample.validator).
  - by eexists.
  - reflexivity.
  - reflexivity.
  - reflexivity.
  - reflexivity.
Defined.

End NodeScenarios.

(** * More on the ledger: what every call preserves *)

Section LedgerSteps.
Context {datetime Changes : Type}.
Variable str_datetime : datetime → string.
Variable str_changes : Changes → string.
Variable sha256_hexdigest : string → string.
Implicit Types (self : Consensus.Consensus datetime Changes).
Implicit Types (b block : Consensus.Block datetime Changes).
Implicit Types (c : Consensus.call datetime Changes).
Import Consensus.
Local Abbreviation create_block :=
  (create_block str_datetime str_changes sha256_hexdigest).
Local Abbreviation step := (step str_datetime str_changes sha256_hexdigest).
Local Abbreviation run := (run str_datetime str_changes sha256_hexdigest).
Local Abbreviation fresh := (fresh str_datetime str_changes sha256_hexdigest).

Lemma evolves_refl rejecting m b : evolves rejecting m b b.
Proof. split; [done|by left]. Qed.

Lemma Forall2_evolves_refl rejecting m (bs : list (Block datetime Changes)) :
  Forall2 (evolves rejecting m) bs bs.
Proof. apply Forall_Forall2_diag, Forall_forall. intros b _. apply evolves_refl. Qed.

Lemma Forall2_evolves_insert rejecting m (bs : list (Block datetime Changes)) i b b' :
  bs !! i = Some b → evolves rejecting m b b' →
  Forall2 (evolves rejecting m) bs (<[i := b']> bs).
Proof.
  intros Hi He. apply Forall2_same_length_lookup. split; [by rewrite length_insert|].
  intros j x y Hx Hy. destruct (decide (i = j)) as [->|Hne].
  - rewrite list_lookup_insert_eq in Hy by by eapply lookup_lt_Some. congruence.
  - rewrite list_lookup_insert_ne in Hy by done.
    assert (x = y) by congruence. subst. apply evolves_refl.
Qed.

(** One call: the blocks of the ledger evolve in place, [create_block]
    adds one fresh block at the end, and [min_validators] stays. *)
Lemma step_spec self c :
  ∃ old new,
    blocks (step self c) = old ++ new
    ∧ Forall2 (evolves (is_reject c) (min_validators self)) (blocks self) old
    ∧ Forall fresh new
    ∧ length new = (if is_create c then 1 else 0)
    ∧ min_validators (step self c) = min_validators self
    ∧ known_validators (step self c)
      = match c with
        | AddValidator node => known_validators (add_validator node self)
        | _ => known_validators self
        end.
Proof.
  destruct c as [node|now node chg|h v|h]; unfold Consensus.step.
  - exists (blocks self), []. rewrite app_nil_r, add_validator_blocks.
    split_and!; try done; [apply Forall2_evolves_refl|].
    unfold add_validator. by case_bool_decide.
  - eexists (blocks self), [_]. split; [done|].
    split_and!; try done; [apply Forall2_evolves_refl|].
    by repeat constructor.
  - destruct (find_block h self) as [[i b]|] eqn:Hf.
    + pose proof (find_block_Some _ _ _ _ Hf) as [Hi _].
      destruct (decide (v ∈ validators b)) as [Hv|Hv].
      * rewrite (validate_block_old _ _ _ _ _ Hf Hv).
        exists (blocks self), []. rewrite app_nil_r.
        split_and!; try done. apply Forall2_evolves_refl.
      * rewrite (validate_block_new _ _ _ _ _ Hf Hv). cbn [snd].
        eexists _, []. rewrite app_nil_r. split; [done|].
        split_and!; try done.
        apply (Forall2_evolves_insert _ _ _ i b); [done|].
        split; [by destruct (_ <=? _)%Z|]. right. left. exists v.
        split; [done|].
        destruct (_ <=? _)%Z eqn:Hq; simpl in *; by rewrite Hq.
    + rewrite (validate_block_unknown _ _ _ Hf).
      exists (blocks self), []. rewrite app_nil_r.
      split_and!; try done. apply Forall2_evolves_refl.
  - unfold reject_block. destruct (find_block h self) as [[i b]|] eqn:Hf.
    + pose proof (find_block_Some _ _ _ _ Hf) as [Hi _].
      eexists _, []. rewrite app_nil_r. split; [done|].
      split_and!; try done.
      apply (Forall2_evolves_insert _ _ _ i b); [done|].
      split; [done|]. right. right. done.
    + exists (blocks self), []. rewrite app_nil_r.
      split_and!; try done. apply Forall2_evolves_refl.
Qed.

(** A property of blocks that every evolution keeps and every fresh block
    has holds throughout the ledger after any calls. *)
Lemma run_Forall (P : Z → Block datetime Changes → Prop) calls self :
  (∀ m b b', evolves true m b b' → P m b → P m b') →
  (∀ m b, fresh b → P m b) →
  Forall (P (min_validators self)) (blocks self) →
  Forall (P (min_validators self)) (blocks (run calls self))
  ∧ min_validators (run calls self) = min_validators self.
Proof.
  intros Hevolves Hfresh. revert self.
  induction calls as [|c calls IH]; intros self Hall; [done|].
  destruct (step_spec self c) as (old & new & Hblocks & Hold & Hnew & _ & Hmin & _).
  simpl. specialize (IH (step self c)). rewrite Hmin in IH. apply IH.
  rewrite Hblocks. apply Forall_app. split.
  - clear Hblocks. induction Hold as [|b b' bs bs' Hb _ IHold]; [done|].
    apply Forall_cons in Hall as [Hb0 Hall]. constructor; [|by apply IHold].
    eapply Hevolves; [|done]. destruct Hb as [Hc Hb]. split; [done|].
    destruct Hb as [?|[?|(_ & ?)]]; auto.
  - eapply Forall_impl; [exact Hnew|]. auto.
Qed.

Lemma creations_cons c (calls : list (call datetime Changes)) :
  creations (c :: calls) = (if is_create c then 1 else 0) + creations calls.
Proof.
  unfold creations. rewrite filter_cons. by destruct c; case_decide.
Qed.

(** After any calls the ledger is the old one, block by block with the
    same content and with validators added at the end of the lists, and
    then one block for each [create_block]. *)
Lemma run_spec calls self :
  ∃ old new,
    blocks (run calls self) = old ++ new
    ∧ Forall2 (λ b b', content b' = content b ∧ validators b `prefix_of` validators b')
              (blocks self) old
    ∧ length new = creations calls.
Proof.
  revert self. induction calls as [|c calls IH]; intros self.
  - exists (blocks self), []. rewrite app_nil_r. split_and!; try done.
    apply Forall_Forall2_diag, Forall_forall. by intros b _.
  - destruct (step_spec self c) as (old1 & new1 & Hblocks & Hold1 & _ & Hnew1 & _).
    destruct (IH (step self c)) as (old2 & new2 & Hrun & Hold2 & Hnew2).
    rewrite Hblocks in Hold2.
    apply Forall2_app_inv_l in Hold2 as (old & mid & Hold & Hmid & ->).
    exists old, (mid ++ new2). simpl. rewrite Hrun, <- (assoc_L (++)).
    split; [done|]. split.
    + clear Hblocks Hrun. revert old Hold.
      induction Hold1 as [|b b1 bs bs1 Hb _ IHold]; intros old Hold.
      { apply Forall2_nil_inv_l in Hold as ->. constructor. }
      apply Forall2_cons_inv_l in Hold as (b2 & old' & [Hc Hp] & Hold & ->).
      constructor; [|by apply IHold]. destruct Hb as [Hc1 Hb]. split; [congruence|].
      etransitivity; [|exact Hp].
      destruct Hb as [->|[(v & _ & -> & _)|(_ & -> & _)]];
        [done|by apply prefix_app_r|done].
    + rewrite length_app, creations_cons, Hnew2.
      apply Forall2_length in Hmid. lia.
Qed.

Lemma added_cons c (calls : list (call datetime Changes)) :
  added (c :: calls)
  = match c with AddValidator node => node :: added calls | _ => added calls end.
Proof. by destruct c. Qed.

(** [add_validator] on a registry without duplicates. *)
Lemma run_known_validators calls self :
  NoDup (known_validators self) →
  NoDup (known_validators (run calls self))
  ∧ ∀ v, v ∈ known_validators (run calls self)
         ↔ v ∈ known_validators self ∨ v ∈ added calls.
Proof.
  revert self. induction calls as [|c calls IH]; intros self Hnodup.
  { split; [done|]. intros v. unfold added. simpl. rewrite elem_of_nil. tauto. }
  destruct (step_spec self c) as (_ & _ & _ & _ & _ & _ & _ & Hknown).
  assert (Hstep : NoDup (known_validators (step self c))
                  ∧ ∀ v, v ∈ known_validators (step self c) ∨ v ∈ added calls
                         ↔ v ∈ known_validators self ∨ v ∈ added (c :: calls)).
  { rewrite Hknown, added_cons. destruct c as [node| | |]; try done.
    unfold add_validator. case_bool_decide as Hin; simpl.
    - split; [done|]. intros v. rewrite elem_of_cons. split; [tauto|].
      intros [?|[->|?]]; auto.
    - split.
      + apply NoDup_app. split_and!; [done| |apply NoDup_singleton].
        intros x Hx Hx'. by apply list_elem_of_singleton in Hx' as ->.
      + intros v. rewrite elem_of_app, list_elem_of_singleton, elem_of_cons. tauto. }
  destruct Hstep as [Hnodup' Hmem]. destruct (IH _ Hnodup') as [IH1 IH2].
  split; [done|]. intros v. simpl. by rewrite IH2, Hmem.
Qed.

(** X1. The registry of validators filled by [add_validator]: after any
    calls on a new ledger it lists exactly the nodes that were passed to
    [add_validator], each of them once. *)
Theorem validator_registry (m : Z) (calls : list (call datetime Changes)) :
  let self := run calls (init m) in
  NoDup (known_validators self)
  ∧ ∀ v, v ∈ known_validators self ↔ v ∈ added calls.
Proof.
  intros self. destruct (run_known_validators calls (init m)) as [Hnodup Hmem].
  { apply NoDup_nil_2. }
  split; [done|]. intros v. subst self. rewrite (Hmem v). simpl.
  rewrite elem_of_nil. tauto.
Qed.

(** X2. The ledger is append-only. Whatever calls follow, the blocks that
    are in the ledger stay at their positions with the same time stamp,
    node, changes, previous hash and hash, and with their validators as a
    prefix of the later list; and the ledger grows by one block for each
    [create_block] call. *)
Theorem ledger_append_only (calls : list (call datetime Changes)) self :
  let self' := run calls self in
  length (blocks self') = length (blocks self) + creations calls
  ∧ Forall2 (λ b b', content b' = content b ∧ validators b `prefix_of` validators b')
            (blocks self) (take (length (blocks self)) (blocks self')).
Proof.
  intros self'. subst self'.
  destruct (run_spec calls self) as (old & new & -> & Hold & Hnew).
  pose proof (Forall2_length _ _ _ Hold) as Hlen.
  rewrite length_app, Hlen, Hnew. split; [done|].
  by rewrite take_app_length.
Qed.

(** X3. No validator is recorded twice for a block: in a ledger reached
    from a new one, every block's list of validators is free of
    duplicates. *)
Theorem block_validators_NoDup (m : Z) (calls : list (call datetime Changes)) :
  Forall (λ b, NoDup (validators b)) (blocks (run calls (init m))).
Proof.
  apply (run_Forall (λ _ b, NoDup (validators b)) calls (init m)).
  - intros _ b b' [_ [->|[(v & Hv & -> & _)|(_ & -> & _)]]] Hb; try done.
    apply NoDup_app. split_and!; [done| |apply NoDup_singleton].
    intros x Hx Hx'. by apply list_elem_of_singleton in Hx' as ->.
  - intros _ b (-> & _). apply NoDup_nil_2.
  - constructor.
Qed.

Lemma run_status_sound calls self :
  Forall (status_sound (min_validators self)) (blocks self) →
  Forall (status_sound (min_validators self)) (blocks (run calls self)).
Proof.
  apply (run_Forall (λ m b, status_sound m b) calls self).
  - intros m' b b' [_ [->|[(v & _ & Hv & Hs)|(_ & _ & Hs)]]] Hb; try done.
    + unfold status_sound. rewrite Hs.
      destruct (Z.leb_spec m' (Z.of_nat (length (validators b')))) as [Hq|Hq].
      { right. left. done. }
      destruct Hb as [[Hp _]|[[_ Hle]|Hr]].
      * left. split; [done|]. by right.
      * rewrite Hv, length_app in Hq. lia.
      * by right; right.
    + by right; right.
  - intros m' b (Hv & Hs & _). left. split; [done|]. by left.
Qed.

(** X4. Status and validators agree. In a ledger reached from a new one
    every block is pending, validated or rejected; a validated block has
    at least [min_validators] validators, and a pending block has fewer,
    or none at all (which matters when [min_validators] is not
    positive). *)
Theorem block_status_sound (m : Z) (calls : list (call datetime Changes)) :
  Forall (status_sound m) (blocks (run calls (init m))).
Proof. apply (run_status_sound calls (init m)). constructor. Qed.

(** X5. Validation is final as long as nobody rejects. A validated block
    is still validated, with the same content, after any calls among
    which there is no [reject_block]: more validations, by whomever, and
    new blocks do not take the status away. *)
Theorem validated_stays_validated (calls : list (call datetime Changes)) self i b :
  Forall (λ c, is_reject c = false) calls →
  blocks self !! i = Some b →
  status b = "validated" →
  ∃ b', blocks (run calls self) !! i = Some b'
        ∧ status b' = "validated" ∧ content b' = content b.
Proof.
  revert self b. induction calls as [|c calls IH]; intros self b Hcalls Hi Hs.
  { by exists b. }
  apply Forall_cons in Hcalls as [Hc Hcalls].
  destruct (step_spec self c) as (old & new & Hblocks & Hold & _).
  destruct (Forall2_lookup_l _ _ _ _ _ Hold Hi) as (b1 & Hi1 & Hc1 & Hb1).
  assert (Hs1 : status b1 = "validated").
  { destruct Hb1 as [->|[(v & _ & _ & ->)|(Hrej & _)]]; [done| |congruence].
    by destruct (_ <=? _)%Z. }
  destruct (IH (step self c) b1 Hcalls) as (b' & Hi' & Hs' & Hc'); [|done|].
  { rewrite Hblocks. by apply lookup_app_l_Some. }
  exists b'. split_and!; [done|done|congruence].
Qed.

(** X6. [reject_block] is idempotent, and it wins over any status: the
    first block of the given hash is rejected afterwards, validated or
    not before, and keeps its validators and its content. *)
Theorem reject_block_idempotent self h :
  reject_block h (reject_block h self) = reject_block h self
  ∧ ∀ i b, find_block h self = Some (i, b) →
      ∃ b', find_block h (reject_block h self) = Some (i, b')
            ∧ status b' = "rejected" ∧ validators b' = validators b
            ∧ content b' = content b.
Proof.
  unfold reject_block at 2 3 4. destruct (find_block h self) as [[i b]|] eqn:Hf.
  - pose proof (find_block_Some _ _ _ _ Hf) as [Hi Hh].
    pose proof (find_block_insert self h i b (set_status "rejected" b) Hf Hh) as Hf'.
    split.
    + unfold reject_block. rewrite Hf'. unfold set_blocks. simpl.
      by rewrite list_insert_insert_eq.
    + intros ? ? [= <- <-]. by eexists.
  - split; [|done]. unfold reject_block. by rewrite Hf.
Qed.

(** X7. Every hash in the ledger is the digest of the block's own time
    stamp, node, changes and previous hash, in that order: validation and
    rejection do not touch the hashed fields. *)
Theorem block_hash_of_content (m : Z) (calls : list (call datetime Changes)) :
  Forall (λ b, hash b = sha256_hexdigest (str_datetime (timestamp b) +:+ node_id b
                                          +:+ str_changes (changes b)
                                          +:+ previous_hash b))
         (blocks (run calls (init m))).
Proof.
  apply (run_Forall (λ _ b, hash b = sha256_hexdigest _) calls (init m)).
  - intros _ b b' [Hc _] Hb. unfold content in Hc. injection Hc as -> -> -> -> ->.
    done.
  - by intros _ b (_ & _ & ->).
  - constructor.
Qed.

Lemma status_partition (bs : list (Block datetime Changes)) :
  Forall (λ b, status b = "pending" ∨ status b = "validated" ∨ status b = "rejected") bs →
  length (filter (λ b, status b = "pending") bs)
  + length (filter (λ b, status b = "validated") bs)
  + length (filter (λ b, status b = "rejected") bs) = length bs.
Proof.
  induction 1 as [|b bs Hb _ IH]; [done|].
  rewrite !filter_cons.
  destruct Hb as [Hb|[Hb|Hb]]; rewrite Hb; repeat case_decide; try done;
    simpl; lia.
Qed.

(** X8. The two views of the ledger. [get_pending_changes] and
    [get_validated_changes] list disjoint sets of blocks, which together
    with the rejected blocks are the whole ledger; [create_block] adds its
    changes at the end of the pending ones and leaves the validated ones
    alone. *)
Theorem pending_and_validated_changes (m : Z) (calls : list (call datetime Changes)) :
  let self := run calls (init m) in
  length (get_pending_changes self) + length (get_validated_changes self)
  + length (filter (λ b, status b = "rejected") (blocks self))
  = length (blocks self)
  ∧ ∀ now node chg,
      let self' := (create_block now node chg self).2 in
      get_pending_changes self' = get_pending_changes self ++ [chg]
      ∧ get_validated_changes self' = get_validated_changes self.
Proof.
  intros self. split.
  - unfold get_pending_changes, get_validated_changes. rewrite !length_fmap.
    apply status_partition.
    eapply Forall_impl; [apply (run_status_sound calls (init m)); constructor|].
    intros b [[? _]|[[? _]|?]]; auto.
  - intros now node chg self'. subst self'.
    unfold get_pending_changes, get_validated_changes. simpl.
    rewrite !filter_app, !filter_cons, !filter_nil. simpl.
    repeat case_decide; try done. by rewrite fmap_app, app_nil_r.
Qed.

(** X9. A hash that no block of the ledger has: [validate_block] returns
    [False] and [reject_block] returns, and neither changes the ledger. *)
Theorem unknown_hash_no_op self h :
  (∀ b, b ∈ blocks self → hash b ≠ h) →
  (∀ v, validate_block h v self = (false, self)) ∧ reject_block h self = self.
Proof.
  intros Hnone.
  assert (Hf : find_block h self = None).
  { unfold find_block. apply list_find_None, Forall_forall. exact Hnone. }
  split.
  - intros v. by apply validate_block_unknown.
  - unfold reject_block. by rewrite Hf.
Qed.

(** X10. The registry plays no part in validation: [validate_block]
    gives the same answer and makes the same change to the blocks whether
    or not [add_validator] ran before it, for the validator itself or for
    any other node. *)
Theorem validate_block_ignores_registry self node h v :
  validate_block h v (add_validator node self)
  = ((validate_block h v self).1, add_validator node (validate_block h v self).2).
Proof.
  unfold validate_block, find_block, add_validator.
  destruct (bool_decide (node ∈ known_validators self)) eqn:Hin; simpl;
    (destruct (list_find _ (blocks self)) as [[i b]|]; simpl; [|by rewrite Hin]);
    (destruct (bool_decide (v ∈ validators b)); simpl; [by rewrite Hin|]);
    destruct (_ <=? _)%Z; simpl; by rewrite Hin.
Qed.

End LedgerSteps.

(** * More on the evolution engine: what every call preserves *)

Section EngineSteps.
Context {datetime Value : Type}.
Variable np_mean : list Value → option Value.
Import EvolutionaryConsensus.
Implicit Types (self : EvolutionaryConsensus datetime Value).
Implicit Types (p proposal : ConsensusProposal datetime Value).
Implicit Types (w : World datetime).
Implicit Types (ps : list (ConsensusProposal datetime Value)).
Implicit Types (calls : list (World datetime * ConsensusProposal datetime Value)).
Local Abbreviation _create_new_rule := (_create_new_rule np_mean).
Local Abbreviation _check_evolution := (_check_evolution np_mean).
Local Abbreviation propose_rule_try := (propose_rule_try np_mean).
Local Abbreviation propose_rule := (propose_rule np_mean).
Local Abbreviation run := (run np_mean).
Local Abbreviation no_internal_error := (no_internal_error np_mean).
Local Abbreviation accepted := (accepted np_mean).

(** The engine after one call. *)
Lemma propose_rule_step w p self :
  let self' := (propose_rule w p self).2 in
  self' = self
  ∨ (_validate_proposal p self = true
     ∧ node_reputation self'
       = <[node_id p := updated_score (node_id p) (fitness_score p) self]> (node_reputation self)
     ∧ ((proposals self' = proposals self ++ [p]
         ∧ current_rule self' = current_rule self
         ∧ rule_history self' = rule_history self)
        ∨ (∃ new_rule,
             5 ≤ length (proposals self ++ [p])
             ∧ _create_new_rule (now w)
                 (take 3 (sorted_reverse fitness_score (proposals self ++ [p])))
               = Some new_rule
             ∧ proposals self' = []
             ∧ current_rule self' = new_rule_type new_rule
             ∧ rule_history self' = rule_history self ++ [new_rule]))).
Proof.
  intros self'. subst self'. destruct (_validate_proposal p self) eqn:Hgate.
  - right. split; [done|].
    destruct (propose_rule_admitted np_mean w p self Hgate) as [-> _]. cbn [snd].
    destruct (admitted_spec p self) as (Hrep & Hpool & Hrule & Hhist).
    destruct (check_evolution_cases np_mean w (admitted p self))
      as [[_ ->]|[(_ & _ & ->)|(Hlen & new_rule & Hnew & ->)]]; cbn [snd].
    + split; [done|]. by left.
    + split; [done|]. by left.
    + simpl. split; [done|]. right. exists new_rule.
      rewrite Hpool in Hlen, Hnew. done.
  - left. by destruct (propose_rule_refused np_mean w p self Hgate) as [-> _].
Qed.

Lemma validate_parameters_spec (params : gmap string Value) :
  _validate_parameters params = true
  ↔ Forall (λ key, is_Some (params !! key)) required_params.
Proof.
  unfold _validate_parameters, required_params. simpl.
  rewrite !andb_true_iff, !bool_decide_eq_true, !Forall_cons, Forall_nil. tauto.
Qed.

Lemma validate_proposal_well_formed p self :
  _validate_proposal p self = true → well_formed p.
Proof.
  unfold _validate_proposal, well_formed.
  destruct (_validate_parameters _); [|done].
  by destruct (_validate_justification _).
Qed.

Lemma create_new_rule_evolved now ps new_rule :
  _create_new_rule now ps = Some new_rule →
  length ps = 3 → Forall well_formed ps → evolved new_rule.
Proof.
  intros Hnew Hlen Hps.
  apply create_new_rule_Some in Hnew as (Htype & _ & Hused & first & Hfirst & Hkeys).
  split_and!; [done|by rewrite Hused, length_fmap|].
  destruct ps as [|p ps]; [done|]. injection Hfirst as <-.
  apply Forall_cons in Hps as [[Hp _] _].
  apply validate_parameters_spec. apply validate_parameters_spec in Hp.
  eapply Forall_impl; [exact Hp|]. intros key [v Hv]. specialize (Hkeys key).
  rewrite Hv in Hkeys. destruct Hkeys as (_ & mean & _ & _ & ->). by eexists.
Qed.

Lemma propose_rule_sound w p self :
  engine_sound self → engine_sound (propose_rule w p self).2.
Proof.
  intros (Hrule & Hpool & Hhist & Hpool_rep & Hhist_rep).
  destruct (propose_rule_step w p self)
    as [->|(Hgate & Hrep' & [(Hpool' & Hrule' & Hhist')
                            |(new_rule & Hlen & Hnew & Hpool' & Hrule' & Hhist')])];
    [done| |].
  all: assert (Hkept : ∀ node, is_Some (node_reputation self !! node) →
         is_Some (node_reputation (propose_rule w p self).2 !! node))
    by (intros node Hnode; rewrite Hrep', lookup_insert_is_Some;
        destruct (decide (node_id p = node)); auto).
  all: assert (Hp_rep : is_Some (node_reputation (propose_rule w p self).2 !! node_id p))
    by (rewrite Hrep', lookup_insert_is_Some; auto).
  all: assert (Hall : Forall well_formed (proposals self ++ [p]))
    by (apply Forall_app; split; [done|];
        by apply Forall_singleton, (validate_proposal_well_formed p self)).
  all: assert (Hall_rep : Forall (λ q, is_Some (node_reputation (propose_rule w p self).2
                                                  !! node_id q))
                                 (proposals self ++ [p]))
    by (apply Forall_app; split;
        [eapply Forall_impl; [exact Hpool_rep|]; intros q; apply Hkept
        |by apply Forall_singleton]).
  all: assert (Hhist_rep' : Forall (λ rule, Forall (λ node,
           is_Some (node_reputation (propose_rule w p self).2 !! node))
           (proposals_used rule)) (rule_history self))
    by (eapply Forall_impl; [exact Hhist_rep|]; intros rule Hr;
        eapply Forall_impl; [exact Hr|]; exact Hkept).
  - unfold engine_sound. rewrite Hpool', Hrule', Hhist'. done.
  - pose proof (sorted_reverse_perm fitness_score (proposals self ++ [p])) as Hperm.
    rewrite <- Hperm in Hall, Hall_rep.
    pose proof (create_new_rule_Some np_mean _ _ _ Hnew) as (Htype & _ & Hused & _).
    unfold engine_sound. rewrite Hpool', Hrule', Hhist'. split_and!; try done.
    + apply Forall_app. split; [done|]. apply Forall_singleton.
      eapply create_new_rule_evolved; [exact Hnew| |by apply Forall_take].
      rewrite length_take, (Permutation_length Hperm). lia.
    + apply Forall_app. split; [done|]. apply Forall_singleton.
      rewrite Hused. apply Forall_fmap. by apply Forall_take.
Qed.

Lemma run_sound calls self : engine_sound self → engine_sound (run calls self).
Proof.
  revert self. induction calls as [|[w p] calls IH]; intros self Hself; [done|].
  simpl. by apply IH, propose_rule_sound.
Qed.

Lemma init_sound : engine_sound (@init datetime Value).
Proof. unfold engine_sound. simpl. split_and!; done. Qed.

(** X11. The rule type never changes: after any calls on a new engine
    [current_rule] is [EVOLUTIONARY], the only type that
    [_create_new_rule] gives a rule. So [get_current_rule] reports
    "evolutionary", with no parameters and no time stamp before the first
    evolution, and afterwards with those of the last rule, which hold
    the three required parameters. *)
Theorem current_rule_is_evolutionary calls :
  let self := run calls init in
  current_rule self = EVOLUTIONARY
  ∧ match last (rule_history self) with
    | None => get_current_rule self = ("evolutionary", ∅, None)
    | Some rule =>
        get_current_rule self
        = ("evolutionary", new_parameters rule, Some (new_timestamp rule))
        ∧ _validate_parameters (new_parameters rule) = true
    end.
Proof.
  intros self.
  destruct (run_sound calls init init_sound) as (Hrule & _ & Hhist & _).
  fold self in Hrule, Hhist. split; [done|].
  unfold get_current_rule. rewrite Hrule.
  destruct (last (rule_history self)) as [rule|] eqn:Hlast; [|done].
  split; [done|]. apply last_Some in Hlast as [l' Hlast].
  rewrite Hlast in Hhist. apply Forall_app in Hhist as [_ Hhist].
  apply Forall_inv in Hhist. apply Hhist.
Qed.

(** X12. The shape of the pool and of the history. After any calls on a
    new engine every proposal in the pool has the three required
    parameters and a justification that passes [_validate_justification];
    and every rule of the history has the type [EVOLUTIONARY], records
    three proposers, and has the three required parameters. *)
Theorem pool_and_history_shape calls :
  Forall well_formed (proposals (run calls init))
  ∧ Forall evolved (rule_history (run calls init)).
Proof.
  destruct (run_sound calls init init_sound) as (_ & Hpool & Hhist & _). done.
Qed.

(** X13. Every proposer is on record: after any calls on a new engine,
    each node with a proposal in the pool, and each node recorded in
    [proposals_used] of a rule of the history, has a reputation. *)
Theorem proposers_have_reputation calls :
  let self := run calls init in
  Forall (λ p, is_Some (node_reputation self !! node_id p)) (proposals self)
  ∧ Forall (λ rule, Forall (λ node, is_Some (node_reputation self !! node))
                           (proposals_used rule))
           (rule_history self).
Proof.
  intros self.
  destruct (run_sound calls init init_sound) as (_ & _ & _ & Hpool & Hhist). done.
Qed.

Lemma low_reputation_refused p self score :
  node_reputation self !! node_id p = Some score →
  PrimFloat.ltb score 0.5 = true →
  _validate_proposal p self = false.
Proof.
  intros Hscore Hlow. unfold _validate_proposal. rewrite Hscore, Hlow.
  destruct (_validate_parameters _); [|done].
  by destruct (_validate_justification _).
Qed.

(** X14. A reputation below 0.5 is final. Once a node's score is below
    0.5, every proposal of that node is refused, whatever it says, so the
    score is never updated again: after any calls it is the same, and
    [propose_rule] still returns [False] for the node and changes
    nothing. *)
Theorem low_reputation_is_final calls self node score :
  node_reputation self !! node = Some score →
  PrimFloat.ltb score 0.5 = true →
  node_reputation (run calls self) !! node = Some score
  ∧ ∀ w p, node_id p = node →
      propose_rule w p (run calls self) = (false, run calls self).
Proof.
  intros Hscore Hlow.
  assert (Hrun : node_reputation (run calls self) !! node = Some score).
  { revert self Hscore. induction calls as [|[w p] calls IH]; intros self Hscore; [done|].
    simpl. apply IH. rewrite propose_rule_reputation.
    destruct (_validate_proposal p self) eqn:Hgate; [|done].
    destruct (decide (node_id p = node)) as [<-|Hne].
    - by rewrite (low_reputation_refused p self score) in Hgate.
    - by rewrite lookup_insert_ne. }
  split; [done|]. intros w p <-.
  by apply propose_rule_refused, (low_reputation_refused _ _ score).
Qed.

Lemma propose_rule_count w p self :
  length (proposals self) < 5 →
  is_Some (propose_rule_try w p self).1 →
  let result := propose_rule w p self in
  length (proposals result.2) + 5 * length (rule_history result.2)
  = length (proposals self) + 5 * length (rule_history self)
    + (if result.1 then 1 else 0)
  ∧ length (proposals result.2) < 5.
Proof.
  intros Hlen Hok result. subst result.
  destruct (_validate_proposal p self) eqn:Hgate.
  2: { destruct (propose_rule_refused np_mean w p self Hgate) as [-> _]. simpl. lia. }
  destruct (propose_rule_admitted np_mean w p self Hgate) as [-> Htry].
  rewrite Htry in Hok. clear Htry. revert Hok.
  destruct (admitted_spec p self) as (_ & Hpool & _ & Hhist).
  destruct (check_evolution_cases np_mean w (admitted p self))
    as [[Hlen' ->]|[(Hlen' & _ & ->)|(Hlen' & new_rule & _ & ->)]];
    cbn [fst snd]; rewrite Hpool, length_app in Hlen'; simpl in Hlen'.
  - intros _. rewrite bool_decide_eq_true_2 by by eexists.
    rewrite Hpool, Hhist, length_app. simpl. lia.
  - by intros [? ?].
  - destruct (history_file_written w); [|by intros [? ?]].
    intros _. rewrite bool_decide_eq_true_2 by by eexists.
    cbn [proposals rule_history]. rewrite length_app, Hhist. simpl. lia.
Qed.

Lemma run_count calls self :
  length (proposals self) < 5 →
  no_internal_error calls self →
  length (proposals (run calls self)) + 5 * length (rule_history (run calls self))
  = length (proposals self) + 5 * length (rule_history self) + accepted calls self
  ∧ length (proposals (run calls self)) < 5.
Proof.
  revert self. induction calls as [|[w p] calls IH]; intros self Hlen; simpl.
  - intros _. lia.
  - intros [Hok Hrest].
    destruct (propose_rule_count w p self Hlen Hok) as [Hcount Hlen'].
    destruct (IH _ Hlen' Hrest) as [IH1 IH2]. cbn [fst snd] in *. lia.
Qed.

(** X15. Counting. In a sequence of calls on a new engine in which no
    call raises an exception internally, with [n] the number of calls
    that returned [True]: the history holds [n / 5] rules and the pool
    the [n mod 5] proposals accepted since the last evolution. *)
Theorem accepted_proposals_count calls :
  no_internal_error calls init →
  length (rule_history (run calls init)) = accepted calls init / 5
  ∧ length (proposals (run calls init)) = accepted calls init `mod` 5.
Proof.
  intros Hok. destruct (run_count calls init) as [Hcount Hlen]; [simpl; lia|done|].
  simpl in Hcount.
  pose proof (Nat.div_mod_eq (accepted calls init) 5) as Hdiv.
  pose proof (Nat.mod_upper_bound (accepted calls init) 5) as Hmod.
  lia.
Qed.

(** X16. With fewer than four proposals in the pool nothing can go wrong
    inside [propose_rule]: it returns the verdict of [_validate_proposal],
    and an accepted proposal is pooled and its proposer's reputation
    updated, whatever the clock says and whether or not the history file
    could be written. *)
Theorem propose_rule_small_pool w p self :
  length (proposals self) < 4 →
  propose_rule w p self
  = if _validate_proposal p self then (true, admitted p self) else (false, self).
Proof.
  intros Hlen. destruct (_validate_proposal p self) eqn:Hgate.
  - destruct (propose_rule_admitted np_mean w p self Hgate) as [-> _].
    destruct (admitted_spec p self) as (_ & Hpool & _).
    destruct (check_evolution_cases np_mean w (admitted p self))
      as [[_ ->]|[(Hlen' & _)|(Hlen' & _)]];
      try (rewrite Hpool, length_app in Hlen'; simpl in Hlen'; lia).
    cbn [fst snd]. by rewrite bool_decide_eq_true_2 by by eexists.
  - by apply propose_rule_refused.
Qed.

(** X17. Nothing is forgotten. Whatever the calls, and whether or not
    they fail inside, the history before them is a prefix of the history
    after them, and a node that has a reputation keeps having one. *)
Theorem history_and_records_grow calls self :
  rule_history self `prefix_of` rule_history (run calls self)
  ∧ ∀ node, is_Some (node_reputation self !! node) →
      is_Some (node_reputation (run calls self) !! node).
Proof.
  revert self. induction calls as [|[w p] calls IH]; intros self; [done|].
  simpl. destruct (IH (propose_rule w p self).2) as [IH1 IH2].
  assert (Hstep : rule_history self `prefix_of` rule_history (propose_rule w p self).2
                  ∧ ∀ node, is_Some (node_reputation self !! node) →
                      is_Some (node_reputation (propose_rule w p self).2 !! node)).
  { destruct (propose_rule_step w p self)
      as [->|(_ & Hrep & [(_ & _ & Hhist)|(new_rule & _ & _ & _ & _ & Hhist)])];
      [done| |]; rewrite Hhist, Hrep; (split; [|intros node Hnode;
        rewrite lookup_insert_is_Some; destruct (decide (node_id p = node)); auto]).
    - done.
    - by apply prefix_app_r. }
  destruct Hstep as [Hstep1 Hstep2]. split.
  - by etransitivity.
  - intros node Hnode. by apply IH2, Hstep2.
Qed.

End EngineSteps.

(** * More on the order of binary64 values: [max] and NaN *)

Section MaxFacts.

(** [a < x] and not [m < x], for a number [m], give [a < m]. *)
Lemma SFltb_le_trans a x m :
  SFltb a x = true → SFltb m x = false → m ≠ S754_nan → SFltb a m = true.
Proof.
  unfold SFltb.
  destruct (SFcompare a x) as [[]|] eqn:Hax; try done. intros _ Hmx Hm.
  assert (SFcompare a m = Some Lt) as ->; [|done].
  destruct a as [sa|sa| |sa ma ea], x as [sx|sx| |sx mx ex], m as [sm|sm| |sm mm em];
    try done; try (destruct sa, sx, sm; done).
  destruct sa, sx, sm; try done.
  - assert (Hge : ¬ (ex < em ∨ (em = ex ∧ (mx < mm)%positive))%Z).
    { intros H. apply SFcompare_finite_neg in H. by rewrite H in Hmx. }
    apply SFcompare_finite_neg in Hax. apply SFcompare_finite_neg. lia.
  - assert (Hge : ¬ (em < ex ∨ (em = ex ∧ (mm < mx)%positive))%Z).
    { intros H. apply SFcompare_finite_pos in H. by rewrite H in Hmx. }
    apply SFcompare_finite_pos in Hax. apply SFcompare_finite_pos. lia.
Qed.

Lemma SFeqb_refl s : s ≠ S754_nan → SFeqb s s = true.
Proof.
  unfold SFeqb. destruct s as [[]|[]| |[] m e]; try done; intros _; simpl;
    by rewrite Z.compare_refl, ?Pos.compare_cont_refl.
Qed.

Lemma is_nan_false (x : float) : PrimFloat.is_nan x = false → Prim2SF x ≠ S754_nan.
Proof.
  unfold PrimFloat.is_nan. rewrite FloatAxioms.eqb_spec. intros H Hnan. by rewrite Hnan in H.
Qed.

Lemma is_nan_true (x : float) : PrimFloat.is_nan x = true → Prim2SF x = S754_nan.
Proof.
  unfold PrimFloat.is_nan. rewrite FloatAxioms.eqb_spec. intros H.
  destruct (Prim2SF x) as [s|s| |s m e] eqn:Hx; [| |done|];
    by rewrite SFeqb_refl in H.
Qed.

Lemma ltb_le_trans (a x m : float) :
  PrimFloat.ltb a x = true → PrimFloat.ltb m x = false → PrimFloat.is_nan m = false →
  PrimFloat.ltb a m = true.
Proof.
  rewrite !ltb_spec. intros Hax Hmx Hm. eapply SFltb_le_trans; eauto using is_nan_false.
Qed.

Lemma ltb_nan_l (x y : float) : PrimFloat.is_nan x = true → PrimFloat.ltb x y = false.
Proof. intros H. rewrite ltb_spec, (is_nan_true x H). done. Qed.

Lemma ltb_nan_r (x y : float) : PrimFloat.is_nan y = true → PrimFloat.ltb x y = false.
Proof.
  intros H. rewrite ltb_spec, (is_nan_true y H). unfold SFltb.
  by destruct (Prim2SF x) as [[]|[]| |[] m e].
Qed.

Lemma ltb_is_nan_r (x y : float) : PrimFloat.ltb x y = true → PrimFloat.is_nan y = false.
Proof.
  intros H. destruct (PrimFloat.is_nan y) eqn:Hy; [|done].
  by rewrite ltb_nan_r in H.
Qed.

Lemma ltb_irrefl (x : float) : PrimFloat.ltb x x = false.
Proof.
  destruct (PrimFloat.ltb x x) eqn:H; [|done]. by rewrite (ltb_asym x x H) in H.
Qed.

(** The running maximum of [max], started on a number. *)
Lemma foldl_max_spec (m : float) (l : list float) :
  PrimFloat.is_nan m = false →
  let r := foldl (λ m item, if PrimFloat.ltb m item then item else m) m l in
  PrimFloat.is_nan r = false
  ∧ r ∈ m :: l
  ∧ Forall (λ x, PrimFloat.ltb r x = false) (m :: l).
Proof.
  revert m. induction l as [|x l IH]; intros m Hm; simpl.
  - split; [done|]. split; [apply elem_of_cons; by left|].
    constructor; [apply ltb_irrefl|done].
  - destruct (PrimFloat.ltb m x) eqn:Hmx.
    + destruct (IH x (ltb_is_nan_r _ _ Hmx)) as (Hr & Hin & Hall).
      set (r := foldl _ x l) in *. clearbody r.
      split; [done|]. split; [apply elem_of_cons; by right|].
      apply Forall_cons in Hall as [Hrx Hall].
      constructor; [|by constructor].
      destruct (PrimFloat.ltb r m) eqn:Hrm; [|done].
      by rewrite (ltb_trans _ _ _ Hrm Hmx) in Hrx.
    + destruct (IH m Hm) as (Hr & Hin & Hall).
      set (r := foldl _ m l) in *. clearbody r.
      split; [done|]. split.
      { rewrite !elem_of_cons. rewrite elem_of_cons in Hin. tauto. }
      apply Forall_cons in Hall as [Hrm Hall].
      constructor; [done|]. constructor; [|done].
      destruct (PrimFloat.ltb r x) eqn:Hrx; [|done].
      by rewrite (ltb_le_trans _ _ _ Hrx Hmx Hm) in Hrm.
Qed.

Lemma foldl_max_nan (m : float) (l : list float) :
  PrimFloat.is_nan m = true →
  foldl (λ m item, if PrimFloat.ltb m item then item else m) m l = m.
Proof.
  intros Hm. induction l as [|x l IH]; [done|]. simpl. by rewrite ltb_nan_l.
Qed.

(** [max(l) > bound] on a list that starts with a number: some item is
    greater than the bound. *)
Lemma py_max_exceeds (bound x : float) (l : list float) :
  PrimFloat.is_nan x = false →
  ∃ m, py_max (x :: l) = Some m
       ∧ PrimFloat.ltb bound m = existsb (PrimFloat.ltb bound) (x :: l).
Proof.
  intros Hx. eexists. split; [done|].
  destruct (foldl_max_spec x l Hx) as (Hr & Hin & Hall).
  set (r := foldl _ x l) in *. clearbody r.
  destruct (existsb _ _) eqn:Hex.
  - apply existsb_exists in Hex as (y & Hy & Hlt).
    apply list_elem_of_In in Hy. rewrite Forall_forall in Hall.
    by apply (ltb_le_trans _ _ _ Hlt (Hall y Hy)).
  - destruct (PrimFloat.ltb bound r) eqn:Hlt; [|done].
    assert (existsb (PrimFloat.ltb bound) (x :: l) = true); [|congruence].
    apply existsb_exists. exists r. split; [|done]. by apply list_elem_of_In.
Qed.

(** Not [x < y] is [y <= x] on numbers. *)
Lemma SFleb_of_not_ltb x y :
  x ≠ S754_nan → y ≠ S754_nan → SFltb x y = false → SFleb y x = true.
Proof.
  unfold SFltb, SFleb. intros Hx Hy.
  destruct x as [sx|sx| |sx mx ex], y as [sy|sy| |sy my ey];
    try done; try (destruct sx, sy; done).
  simpl. change (Pos.compare_cont Eq mx my) with (Pos.compare mx my).
  change (Pos.compare_cont Eq my mx) with (Pos.compare my mx).
  rewrite (Z.compare_antisym ex ey), (Pos.compare_antisym mx my).
  destruct sx, sy; try done;
    destruct (Z.compare ex ey); simpl; try done;
    destruct (Pos.compare mx my); simpl; done.
Qed.

Lemma leb_of_not_ltb (x y : float) :
  PrimFloat.is_nan x = false → PrimFloat.is_nan y = false →
  PrimFloat.ltb x y = false → PrimFloat.leb y x = true.
Proof.
  rewrite ltb_spec, leb_spec. intros Hx Hy.
  apply SFleb_of_not_ltb; by apply is_nan_false.
Qed.

(** Adding to -0.0 changes nothing. *)
Lemma add_neg_zero (x : float) : (-0 + x)%float = x.
Proof.
  apply Prim2SF_inj. rewrite add_spec.
  change (Prim2SF (-0)%float) with (S754_zero true).
  unfold SF64add. by destruct (Prim2SF x) as [[]|[]| |[] m e].
Qed.

End MaxFacts.

(** * The evolution trigger on scores that are numbers *)

Section EvolutionTrigger.
Context {datetime : Type}.
(** The parameter values are numbers, which [np.mean] converts to
    float64; of [np.mean] the statement uses what it returns for three of
    them: their sum from the left, divided by 3, in binary64. *)
Variable np_mean : list float → option float.
Hypothesis np_mean_three :
  ∀ v1 v2 v3, np_mean [v1; v2; v3] = Some ((v1 + v2 + v3) / 3)%float.
Import EvolutionaryConsensus.
Implicit Types (self : EvolutionaryConsensus datetime float).
Implicit Types (p proposal : ConsensusProposal datetime float).
Implicit Types (w : World datetime).

(** C4. After an accepted proposal: with fewer than five proposals in
    the pool nothing else happens. Otherwise, when no fitness score in
    the pool is NaN, so that the scores are ordered and Python's stable
    sort is the one of [sorted_reverse]: the first three proposals of the
    pool sorted by [fitness_score] in reverse are selected, their scores
    descending and no other proposal scoring higher than one of them;
    the new rule is installed with the type [EVOLUTIONARY]; its
    parameters have the keys of the first selected proposal, each with
    the mean of the three selected values, [(v1 + v2 + v3) / 3] in
    binary64; the history gains the rule, which records the three
    proposers; and the pool is empty. *)
Theorem evolution_trigger w p self self' :
  propose_rule np_mean w p self = (true, self') →
  let pool := proposals self ++ [p] in
  (length pool < 5 →
     proposals self' = pool ∧ current_rule self' = current_rule self
     ∧ rule_history self' = rule_history self)
  ∧ (5 ≤ length pool →
     Forall (λ q, PrimFloat.is_nan (fitness_score q) = false) pool →
     ∃ p1 p2 p3 rest new_rule,
       sorted_reverse fitness_score pool = p1 :: p2 :: p3 :: rest
       ∧ p1 :: p2 :: p3 :: rest ≡ₚ pool
       ∧ PrimFloat.leb (fitness_score p2) (fitness_score p1) = true
       ∧ PrimFloat.leb (fitness_score p3) (fitness_score p2) = true
       ∧ Forall (λ q, Forall (λ s, PrimFloat.leb (fitness_score q) (fitness_score s) = true)
                             [p1; p2; p3]) rest
       ∧ current_rule self' = EVOLUTIONARY
       ∧ rule_history self' = rule_history self ++ [new_rule]
       ∧ new_rule_type new_rule = EVOLUTIONARY
       ∧ proposals_used new_rule = [node_id p1; node_id p2; node_id p3]
       ∧ proposals self' = []
       ∧ ∀ key,
           match parameters p1 !! key with
           | None => new_parameters new_rule !! key = None
           | Some v1 =>
               ∃ v2 v3,
                 parameters p2 !! key = Some v2 ∧ parameters p3 !! key = Some v3
                 ∧ new_parameters new_rule !! key = Some ((v1 + v2 + v3) / 3)%float
           end).
Proof.
  intros Hcall pool.
  destruct (check_evolution_selected np_mean w p self self' Hcall) as [Hsmall Hfull].
  split; [exact Hsmall|]. intros Hlen Hnumbers.
  destruct (Hfull Hlen)
    as (p1 & p2 & p3 & rest & new_rule & Hsorted & Hperm & H12 & H23 & Hrest
        & Hrule & Hhist & Htype & Hused & Hpool & Hkeys).
  fold pool in Hsorted, Hperm. rewrite <- Hperm in Hnumbers.
  apply Forall_cons in Hnumbers as [Hn1 Hnumbers].
  apply Forall_cons in Hnumbers as [Hn2 Hnumbers].
  apply Forall_cons in Hnumbers as [Hn3 Hnumbers].
  exists p1, p2, p3, rest, new_rule. split_and!; try done.
  - by apply leb_of_not_ltb.
  - by apply leb_of_not_ltb.
  - rewrite Forall_forall in Hrest, Hnumbers. apply Forall_forall. intros q Hq.
    specialize (Hrest q Hq). specialize (Hnumbers q Hq).
    apply Forall_cons in Hrest as [Hq1 Hrest].
    apply Forall_cons in Hrest as [Hq2 Hrest].
    apply Forall_cons in Hrest as [Hq3 _].
    repeat constructor; by apply leb_of_not_ltb.
  - intros key. specialize (Hkeys key).
    destruct (parameters p1 !! key) as [v1|]; [|done].
    destruct Hkeys as (v2 & v3 & mean & Hv2 & Hv3 & Hmean & Hnew).
    exists v2, v3. rewrite np_mean_three in Hmean. by injection Hmean as <-.
Qed.

End EvolutionTrigger.

(** * More on the node: its own ledger, the size check, the training data *)

Section NodeSteps.
Context {datetime Experience Stamp Message : Type}.
Variable experience_get_timestamp : Experience → option Stamp.
Variable str_datetime : datetime → string.
Variable str_changes : GemmaNode.Changes Experience Stamp (gmap string float) → string.
Variable sha256_hexdigest : string → string.
Variable experience_message : Experience → option Message.
Variable experience_source : Experience → option string.
Variable experience_target : Experience → option string.
Import GemmaNode.
Implicit Types (self : GemmaNode datetime Experience Stamp).
Implicit Types (block : Consensus.Block datetime (Changes Experience Stamp Ref)).
Implicit Types (others : Ref → gmap string float).
Local Abbreviation learn_from_experience :=
  (learn_from_experience experience_get_timestamp experience_message
     experience_source experience_target str_datetime str_changes sha256_hexdigest).
Local Abbreviation step :=
  (step experience_get_timestamp experience_message experience_source
     experience_target str_datetime str_changes sha256_hexdigest).
Local Abbreviation run :=
  (run experience_get_timestamp experience_message experience_source
     experience_target str_datetime str_changes sha256_hexdigest).
Local Abbreviation training_example :=
  (training_example experience_message experience_source experience_target).
Local Abbreviation _prepare_training_data :=
  (_prepare_training_data experience_message experience_source experience_target).

Lemma init_own_ledger node_id ref :
  own_ledger (@init datetime Experience Stamp node_id ref).
Proof.
  unfold own_ledger, init, Consensus.add_validator. simpl.
  split; [done|]. exists []. split; [apply sublist_nil_l|constructor].
Qed.

(** What [learn_from_experience] leaves of the node: the experience is
    appended in any case, and the ledger is as before or has one more
    block, pending and the node's own, that carries the experience. *)
Lemma learn_from_experience_cases exp t self :
  id (learn_from_experience exp t self).2 = id self
  ∧ experiences (learn_from_experience exp t self).2 = experiences self ++ [exp]
  ∧ Consensus.min_validators (consensus (learn_from_experience exp t self).2)
    = Consensus.min_validators (consensus self)
  ∧ match (learn_from_experience exp t self).1 with
    | None =>
        Consensus.blocks (consensus (learn_from_experience exp t self).2)
        = Consensus.blocks (consensus self)
    | Some block =>
        Consensus.blocks (consensus (learn_from_experience exp t self).2)
        = Consensus.blocks (consensus self) ++ [block]
        ∧ Consensus.node_id block = id self
        ∧ experience (Consensus.changes block) = Some exp
        ∧ Consensus.status block = "pending"
        ∧ Consensus.validators block = []
    end.
Proof.
  unfold GemmaNode.learn_from_experience.
  destruct (_prepare_training_data _ _); [|done].
  destruct (learning_rate t); [|done].
  destruct (updates t); done.
Qed.

Lemma learn_from_experience_own_ledger exp t self :
  own_ledger self → own_ledger (learn_from_experience exp t self).2.
Proof.
  intros (Hmin & learnt & Hsub & Hblocks).
  destruct (learn_from_experience_cases exp t self) as (Hid & Hexp & Hmin' & Hcase).
  split; [congruence|]. rewrite Hid, Hexp.
  destruct (learn_from_experience exp t self).1 as [block|].
  - destruct Hcase as (-> & Hnode & Hchanges & Hstatus & Hnone).
    exists (learnt ++ [exp]). split; [by apply sublist_app|].
    apply Forall2_app; [done|]. constructor; [|constructor].
    split_and!; try done. by left.
  - rewrite Hcase. exists learnt. split; [by apply sublist_inserts_r|done].
Qed.

(** [validate_changes] on a node with a ledger of its own. *)
Lemma validate_changes_own_ledger others block self :
  own_ledger self →
  match validate_changes others block self with
  | Some (accepted, self') =>
      accepted = false ∧ own_ledger self' ∧ id self' = id self
      ∧ experiences self' = experiences self
  | None => True
  end.
Proof.
  intros (Hmin & learnt & Hsub & Hblocks). unfold validate_changes.
  destruct (is_validator self); simpl; [|by split_and!; [|split; eauto| |]].
  destruct (_validate_changes _) as [[]|]; simpl; [| |done];
    [|by split_and!; [|split; eauto| |]].
  destruct (metrics self !! "validation_success") as [n|]; simpl; [|done].
  destruct (Consensus.find_block (Consensus.hash block) (consensus self))
    as [[i b]|] eqn:Hf.
  - pose proof (find_block_Some _ _ _ _ Hf) as [Hi _].
    destruct (Forall2_lookup_l _ _ _ _ _ Hblocks Hi) as (exp & Hexp & Hb).
    destruct (decide (id self ∈ Consensus.validators b)) as [Hv|Hv].
    + rewrite (validate_block_old _ _ _ _ _ Hf Hv).
      split_and!; try done. split; eauto.
    + rewrite (validate_block_new _ _ _ _ _ Hf Hv). cbv zeta.
      destruct Hb as (Hnode & Hchanges & Hstatus & [Hnone|Hself]).
      2: { rewrite Hself in Hv. exfalso. apply Hv, list_elem_of_singleton. done. }
      simpl. rewrite Hmin, Hnone. simpl. split_and!; try done.
      split; [done|]. exists learnt. split; [done|]. simpl.
      rewrite <- (list_insert_id learnt i exp Hexp).
      apply Forall2_insert; [done|]. simpl. rewrite Hnone. split_and!; try done.
      by right.
  - rewrite (validate_block_unknown _ _ _ Hf).
    split_and!; try done. split; eauto.
Qed.

Lemma run_own_ledger calls self :
  own_ledger self → own_ledger (run calls self) ∧ id (run calls self) = id self.
Proof.
  revert self. induction calls as [|c calls IH]; intros self Hself; [done|].
  simpl. destruct c as [exp t|others block]; simpl.
  - destruct (IH _ (learn_from_experience_own_ledger exp t self Hself)) as [IH1 IH2].
    split; [done|]. rewrite IH2.
    by destruct (learn_from_experience_cases exp t self) as (-> & _).
  - pose proof (validate_changes_own_ledger others block self Hself) as Hv.
    destruct (validate_changes others block self) as [[accepted self']|]; [|by apply IH].
    destruct Hv as (_ & Hself' & Hid & _).
    destruct (IH _ Hself') as [IH1 IH2]. split; [done|]. congruence.
Qed.

(** X18. A node never reaches a quorum on its own. Each node has a
    [Consensus] of its own with the default quorum of three, and
    [validate_changes] validates in that ledger under the node's own name.
    So after any sequence of [learn_from_experience] and
    [validate_changes] calls on a new node, whether or not they raise,
    [validate_changes] returns [False] for every block (or raises),
    whatever the metrics of the other nodes are, and the node's ledger
    has no validated change. *)
Theorem node_never_reaches_quorum node_id ref calls others block :
  let self := run calls (init node_id ref) in
  match validate_changes others block self with
  | Some (accepted, _) => accepted = false
  | None => True
  end
  ∧ Consensus.get_validated_changes (consensus self) = [].
Proof.
  intros self.
  destruct (run_own_ledger calls (init node_id ref) (init_own_ledger node_id ref))
    as [Hself _].
  fold self in Hself. split.
  - pose proof (validate_changes_own_ledger others block self Hself) as Hv.
    destruct (validate_changes others block self) as [[accepted self']|]; [|done].
    apply Hv.
  - destruct Hself as (_ & learnt & _ & Hblocks).
    unfold Consensus.get_validated_changes.
    induction Hblocks as [|b exp bs exps (_ & _ & Hs & _) _ IH]; [done|].
    rewrite filter_cons. rewrite Hs. by case_decide.
Qed.

(** X19. The ledger of a node follows its experiences. After any
    sequence of [learn_from_experience] and [validate_changes] calls on
    a new node, the blocks of the ledger carry, one each and in order,
    experiences that the node has recorded: a subsequence of its
    experiences, since an experience is recorded before anything can
    raise and gets its block only when nothing does. Every block is the
    node's own and is pending. *)
Theorem node_ledger_follows_experiences node_id ref calls :
  let self := run calls (init node_id ref) in
  id self = node_id
  ∧ ∃ learnt,
      learnt `sublist_of` experiences self
      ∧ Forall2 (λ b exp, Consensus.node_id b = node_id
                          ∧ experience (Consensus.changes b) = Some exp
                          ∧ Consensus.status b = "pending")
                (Consensus.blocks (consensus self)) learnt.
Proof.
  intros self.
  destruct (run_own_ledger calls (init node_id ref) (init_own_ledger node_id ref))
    as [(_ & learnt & Hsub & Hblocks) Hid].
  fold self in Hsub, Hblocks, Hid. split; [done|].
  exists learnt. split; [done|]. eapply Forall2_impl; [exact Hblocks|].
  intros b exp (Hnode & Hchanges & Hs & _). rewrite Hid in Hnode. done.
Qed.

(** X20. The size check of [_validate_changes] by cases on the weights,
    read in the dictionary's order. With no weight at all [max] raises.
    When the first weight is NaN, [max] returns it, NaN is not greater
    than 1.0, and the check on the weights passes whatever the other
    weights are. Otherwise the changes pass exactly when no weight is
    greater than 1.0 and the learning rate is not greater than 0.1. *)
Theorem validate_changes_by_weights
    (exp : option Experience) (ts : option Stamp)
    (weights : list (string * float)) (metrics : option (gmap string float)) :
  _validate_changes (mkChanges exp (Some (mkUpdates (Some weights) metrics)) ts)
  = match weights with
    | [] => None
    | (_, x) :: rest =>
        if PrimFloat.is_nan x then Some (rate_within_limit metrics)
        else Some (negb (existsb (PrimFloat.ltb 1) (x :: rest.*2))
                   && rate_within_limit metrics)
    end.
Proof.
  unfold _validate_changes. cbn [model_updates weight_updates performance_metrics].
  destruct weights as [|[k x] rest]; [done|].
  rewrite fmap_cons. cbn [snd].
  destruct (PrimFloat.is_nan x) eqn:Hx.
  - unfold py_max. rewrite (foldl_max_nan x _ Hx). simpl.
    rewrite (ltb_nan_r 1 x Hx). unfold rate_within_limit.
    destruct metrics as [ms|]; [|done]. by destruct (PrimFloat.ltb 0.1 _).
  - destruct (py_max_exceeds 1 x rest.*2 Hx) as (m & -> & Hm).
    rewrite <- Hm. simpl. destruct (PrimFloat.ltb 1 m); [done|]. simpl.
    unfold rate_within_limit.
    destruct metrics as [ms|]; [|done]. by destruct (PrimFloat.ltb 0.1 _).
Qed.

Lemma mapM_snoc {A B} (f : A → option B) (l : list A) (x : A) :
  mapM f (l ++ [x]) = ys ← mapM f l; y ← f x; Some (ys ++ [y]).
Proof.
  induction l as [|a l IH]; simpl.
  - by destruct (f x).
  - destruct (f a); simpl; [|done]. rewrite IH.
    destruct (mapM f l); simpl; [|done]. by destruct (f x).
Qed.

(** X21. The experience being learnt is used twice.
    [learn_from_experience] appends the experience to the history before
    [_prepare_training_data] reads the last five of the history, so the
    examples are: the example of the new experience, those of the last
    four experiences before it, and the example of the new experience
    again. *)
Theorem new_experience_is_used_twice exp t self :
  _prepare_training_data exp (learn_from_experience exp t self).2
  = current ← training_example exp;
    past ← mapM training_example
           (drop (length (experiences self) - 4) (experiences self));
    Some (current ++ concat past ++ current).
Proof.
  destruct (learn_from_experience_cases exp t self) as (_ & Hexp & _).
  unfold GemmaNode._prepare_training_data. rewrite Hexp.
  rewrite length_app. simpl.
  replace (length (experiences self) + 1 - 5) with (length (experiences self) - 4)
    by lia.
  rewrite drop_app_le by lia. rewrite mapM_snoc.
  destruct (training_example exp) as [current|]; simpl.
  - destruct (mapM _ _) as [past|]; simpl; [|done].
    by rewrite concat_app, (assoc_L (++)); simpl; rewrite app_nil_r, (assoc_L (++)).
  - done.
Qed.

End NodeSteps.

(** * More on the selection: ties and pools that are sorted already *)

Section EngineTies.
Context {datetime Value : Type}.
Variable np_mean : list Value → option Value.
Import EvolutionaryConsensus.
Implicit Types (self : EvolutionaryConsensus datetime Value).
Implicit Types (p proposal : ConsensusProposal datetime Value).
Implicit Types (w : World datetime).
Local Abbreviation propose_rule := (propose_rule np_mean).

Lemma insert_reverse_last {A} (key : A → float) (x : A) (l : list A) :
  Forall (λ y, not_less key y x) l → insert_reverse key x l = l ++ [x].
Proof.
  induction 1 as [|y l Hy _ IH]; simpl; [done|].
  unfold not_less in Hy. by rewrite Hy, IH.
Qed.

(** [sorted(l, key=key, reverse=True)] keeps a list in which no element
    has a smaller key than a later one, equal keys included. *)
Lemma sorted_reverse_id {A} (key : A → float) (l : list A) :
  StronglySorted (not_less key) l → sorted_reverse key l = l.
Proof.
  induction l as [|x l IH] using rev_ind; [done|].
  intros Hs. apply StronglySorted_app in Hs as (Hlast & Hl & _).
  unfold sorted_reverse in *. rewrite foldl_app. simpl. rewrite (IH Hl).
  apply insert_reverse_last, Forall_forall. intros y Hy.
  apply Hlast; [done|]. by apply list_elem_of_singleton.
Qed.

(** X22. Ties go to the earlier proposals. When no proposal of the pool
    has a smaller fitness score than a later one (all five scores equal,
    for instance), the stable sort leaves the pool as it is, and the rule
    is made from the first three proposals of the pool, in the order in
    which they were accepted. *)
Theorem sorted_pool_selects_first_three w p self self' :
  propose_rule w p self = (true, self') →
  5 ≤ length (proposals self ++ [p]) →
  StronglySorted (not_less fitness_score) (proposals self ++ [p]) →
  ∃ new_rule,
    rule_history self' = rule_history self ++ [new_rule]
    ∧ proposals_used new_rule = node_id <$> take 3 (proposals self ++ [p]).
Proof.
  intros Hcall Hlen Hsorted. destruct (_validate_proposal p self) eqn:Hgate.
  2: { destruct (propose_rule_refused np_mean w p self Hgate) as [Heq _]. congruence. }
  destruct (propose_rule_admitted np_mean w p self Hgate) as [Heq _].
  rewrite Heq in Hcall. injection Hcall as Hres <-.
  destruct (admitted_spec p self) as (_ & Hpool & _ & Hhist).
  revert Hres.
  destruct (check_evolution_cases np_mean w (admitted p self))
    as [[Hlen' ->]|[(_ & _ & ->)|(_ & new_rule & Hnew & ->)]]; cbn [fst snd].
  - rewrite Hpool in Hlen'. lia.
  - by rewrite bool_decide_eq_false_2 by by intros [? ?].
  - intros _. exists new_rule. cbn [rule_history]. split; [by rewrite Hhist|].
    rewrite Hpool, (sorted_reverse_id _ _ Hsorted) in Hnew.
    by apply create_new_rule_Some in Hnew as (_ & _ & Hused & _).
Qed.

End EngineTies.

(** * The further properties on concrete inputs *)

Section LedgerExamples.
Import Consensus.

(** A validated block of the sample ledger after one more validation, a
    new block and a registration. *)
Lemma validated_stays_validated_witness :
  let calls : list (call Z (list (string * Z))) :=
    [ValidateBlock Sample.the_hash "n2"; CreateBlock 1%Z "n2" [("y", 2%Z)];
     AddValidator "n3"] in
  Forall (λ c, is_reject c = false) calls
  ∧ ∃ b', blocks (run Sample.str_datetime Sample.str_changes Sample.digest calls
                      Sample.validated_ledger) !! 0 = Some b'
          ∧ status b' = "validated"
          ∧ content b' = content (Sample.the_block ["n1"] "validated").
Proof.
  intros calls.
  assert (Hcalls : Forall (λ c, is_reject c = false) calls) by (repeat constructor).
  split; [exact Hcalls|].
  apply (validated_stays_validated Sample.str_datetime Sample.str_changes Sample.digest
           calls Sample.validated_ledger 0 (Sample.the_block ["n1"] "validated") Hcalls);
    reflexivity.
Defined.

(** A hash that the block of the sample ledger does not have. *)
Lemma unknown_hash_no_op_witness :
  (∀ v, validate_block "other" v Sample.validated_ledger
        = (false, Sample.validated_ledger))
  ∧ reject_block "other" Sample.validated_ledger = Sample.validated_ledger.
Proof.
  apply (unknown_hash_no_op Sample.validated_ledger "other").
  intros b Hb.
  change (blocks Sample.validated_ledger)
    with [Sample.the_block ["n1"] "validated"] in Hb.
  apply list_elem_of_singleton in Hb as ->. vm_compute. discriminate.
Defined.

End LedgerExamples.

Section EngineExamples.
Import EvolutionaryConsensus EngineSample.

(** Node "d" after its proposal of fitness 0.3: its score is below 0.5,
    and stays what it is through two more calls, one of them its own. *)
Lemma low_reputation_is_final_witness :
  let self := run mean [(world 1, pd)] init in
  let score := (0.7 * 0.5 + 0.3 * 0.3)%float in
  let calls := [(world 2, pa); (world 3, pd)] in
  node_reputation self !! "d" = Some score
  ∧ PrimFloat.ltb score 0.5 = true
  ∧ node_reputation (run mean calls self) !! "d" = Some score
  ∧ ∀ w p, node_id p = "d" →
      propose_rule mean w p (run mean calls self) = (false, run mean calls self).
Proof.
  intros self score calls.
  assert (Hscore : node_reputation self !! "d" = Some score) by reflexivity.
  assert (Hlow : PrimFloat.ltb score 0.5 = true) by reflexivity.
  split; [exact Hscore|]. split; [exact Hlow|].
  exact (low_reputation_is_final mean calls self "d" score Hscore Hlow).
Defined.

(** The five calls of the scenario: five accepted proposals, one rule,
    an empty pool. *)
Lemma accepted_proposals_count_witness :
  let calls := [(world 1, pa); (world 2, pb); (world 3, pc); (world 4, pd); (world 5, pe)] in
  no_internal_error mean calls init
  ∧ length (rule_history (run mean calls init)) = accepted mean calls init / 5
  ∧ length (proposals (run mean calls init)) = accepted mean calls init `mod` 5.
Proof.
  intros calls.
  assert (Hok : no_internal_error mean calls init).
  { vm_compute. split_and!; try done; by eexists. }
  split; [exact Hok|].
  exact (accepted_proposals_count mean calls Hok).
Defined.

(** The first proposal to a new engine. *)
Lemma propose_rule_small_pool_witness :
  length (proposals (@init Z float)) < 4
  ∧ propose_rule mean (world 1) pa init
    = if _validate_proposal pa init then (true, admitted pa init) else (false, init).
Proof.
  assert (Hlen : length (proposals (@init Z float)) < 4) by (simpl; lia).
  split; [exact Hlen|].
  exact (propose_rule_small_pool mean (world 1) pa init Hlen).
Defined.

Lemma mean64_three (v1 v2 v3 : float) :
  mean64 [v1; v2; v3] = Some ((v1 + v2 + v3) / 3)%float.
Proof. unfold mean64. simpl. by rewrite add_neg_zero. Qed.

(** C4 on the five proposals of fitness 0.9, 0.8, 0.95, 0.3 and 0.6: the
    ones of fitness 0.95, 0.9 and 0.8 are selected, in this order; the
    rule has the means of their thresholds 0.8, 0.6 and 0.7, of their
    timeouts 50, 30 and 40 and of their quorums 5, 3 and 4; and the pool
    is empty after the fifth call. *)
Lemma evolution_trigger_witness :
  let self := run mean64 [(world 1, pa); (world 2, pb); (world 3, pc); (world 4, pd)] init in
  let self' := (propose_rule mean64 (world 5) pe self).2 in
  (fitness_score <$> proposals self ++ [pe] = [0.9; 0.8; 0.95; 0.3; 0.6]%float
   ∧ take 3 (sorted_reverse fitness_score (proposals self ++ [pe])) = [pc; pa; pb]
   ∧ fitness_score <$> [pc; pa; pb] = [0.95; 0.9; 0.8]%float
   ∧ (λ rule, (proposals_used rule,
               (new_parameters rule !!.) <$> ["threshold"; "timeout"; "min_validators"]))
       <$> rule_history self'
     = [(["c"; "a"; "b"], [Some 0.6999999999999998; Some 40; Some 4]%float)]
   ∧ proposals self' = [])
  ∧ ∃ p1 p2 p3 rest new_rule,
      sorted_reverse fitness_score (proposals self ++ [pe]) = p1 :: p2 :: p3 :: rest
      ∧ p1 :: p2 :: p3 :: rest ≡ₚ proposals self ++ [pe]
      ∧ PrimFloat.leb (fitness_score p2) (fitness_score p1) = true
      ∧ PrimFloat.leb (fitness_score p3) (fitness_score p2) = true
      ∧ Forall (λ q, Forall (λ s, PrimFloat.leb (fitness_score q) (fitness_score s) = true)
                            [p1; p2; p3]) rest
      ∧ current_rule self' = EVOLUTIONARY
      ∧ rule_history self' = rule_history self ++ [new_rule]
      ∧ new_rule_type new_rule = EVOLUTIONARY
      ∧ proposals_used new_rule = [node_id p1; node_id p2; node_id p3]
      ∧ proposals self' = []
      ∧ ∀ key,
          match parameters p1 !! key with
          | None => new_parameters new_rule !! key = None
          | Some v1 =>
              ∃ v2 v3,
                parameters p2 !! key = Some v2 ∧ parameters p3 !! key = Some v3
                ∧ new_parameters new_rule !! key = Some ((v1 + v2 + v3) / 3)%float
          end.
Proof.
  intros self self'. split; [by vm_compute|].
  apply (evolution_trigger mean64 mean64_three (world 5) pe self self').
  - vm_compute. reflexivity.
  - vm_compute. lia.
  - change (proposals self ++ [pe]) with [pa; pb; pc; pd; pe].
    repeat constructor.
Defined.

(** Five proposals accepted in the order of their scores: the rule is
    made from the first three. *)
Lemma sorted_pool_selects_first_three_witness :
  let self := run mean [(world 1, pc); (world 2, pa); (world 3, pb); (world 4, pe)] init in
  let result := propose_rule mean (world 5) pd self in
  result.1 = true
  ∧ fitness_score <$> proposals self ++ [pd] = [0.95; 0.9; 0.8; 0.6; 0.3]%float
  ∧ ∃ new_rule,
      rule_history result.2 = rule_history self ++ [new_rule]
      ∧ proposals_used new_rule = node_id <$> take 3 (proposals self ++ [pd]).
Proof.
  intros self result. split; [by vm_compute|]. split; [by vm_compute|].
  apply (sorted_pool_selects_first_three mean (world 5) pd self result.2).
  - vm_compute. reflexivity.
  - vm_compute. lia.
  - change (proposals self ++ [pd]) with [pc; pa; pb; pe; pd].
    repeat constructor.
Defined.

End EngineExamples.
